(** * PatternSeeker: a zero-copy text cursor

    A shallow embedding of [PatterSeekerNS::PatternSeeker]
    (PatternSeeker.hpp) and of the parts of [std::string_view] and of the
    C library it calls, followed by the properties of the cursor.

    Conventions of the model.
    - A [char] is an [ascii]; text is a [list ascii].
    - A [std::string_view] is a window on a character array.  The window is
      recorded as the array split at the two ends of the view: the
      characters before the view, the characters of the view, and the
      characters after it up to the terminating NUL of the array.  The data
      pointer and the size are read off this split, so every view of the
      model lies inside its array.
    - A [const char*] is a block (which array) and an offset in it.
    - [size_t] values are natural numbers.  Where the source computes in
      [size_t] with a possible wrap-around (npos + 1, a difference of two
      positions) the wrap-around is written out at that place.
    - An [int] is an integer within the range of a 32-bit [int]; the one
      increment of an [int] in the source faults where it would leave the
      range.
    - Operations whose C++ precondition can be violated, or which can throw,
      return a [res]: [Fault undefined_behaviour] or [Fault out_of_range].
    - Methods that modify the cursor are computations in the monad [M],
      which threads the receiver ([*this]) and propagates faults. *)

From Stdlib Require Import Ascii String List ZArith Lia Bool Arith.
Import ListNotations.

Local Open Scope list_scope.
Local Open Scope nat_scope.

Set Implicit Arguments.

(* ================================================================== *)
(** ** Characters and text *)

Definition text := list ascii.

(** A string literal of the source. *)
Definition lit (s : string) : text := list_ascii_of_string s.

(** The double quote character. *)
Definition dquote : ascii := ascii_of_nat 34.

(** A string literal of the source in which every double quote is written
    as an apostrophe here. *)
Definition unq (s : string) : text :=
  map (fun ch => if Ascii.eqb ch "'"%char then dquote else ch) (lit s).

(** [std::isspace] in the "C" locale: space, \t, \n, \v, \f, \r. *)
Definition isspace (ch : ascii) : bool :=
  let n := nat_of_ascii ch in
  (n =? 32) || ((9 <=? n) && (n <=? 13)).

(** [isdigit]: '0' .. '9'. *)
Definition isdigit (ch : ascii) : bool :=
  let n := nat_of_ascii ch in
  (48 <=? n) && (n <=? 57).

Definition digit_value (ch : ascii) : Z := Z.of_nat (nat_of_ascii ch) - 48.

Fixpoint take_while (p : ascii -> bool) (s : text) : text :=
  match s with
  | ch :: s' => if p ch then ch :: take_while p s' else []
  | [] => []
  end.

Fixpoint drop_while (p : ascii -> bool) (s : text) : text :=
  match s with
  | ch :: s' => if p ch then drop_while p s' else s
  | [] => []
  end.

(** [s] begins with [prefix]. *)
Fixpoint starts_with_text (s prefix : text) {struct prefix} : bool :=
  match prefix, s with
  | [], _ => true
  | p :: prefix', ch :: s' => Ascii.eqb ch p && starts_with_text s' prefix'
  | _ :: _, [] => false
  end.

(** Index of the first occurrence of [pat] in [s]; [None] is [npos]. *)
Fixpoint find_text (pat s : text) : option nat :=
  if starts_with_text s pat then Some 0
  else match s with
       | [] => None
       | _ :: s' => option_map S (find_text pat s')
       end.

(** Index of the last occurrence of [pat] in [s]. *)
Fixpoint rfind_text (pat s : text) : option nat :=
  match s with
  | [] => if starts_with_text [] pat then Some 0 else None
  | _ :: s' =>
      match rfind_text pat s' with
      | Some i => Some (S i)
      | None => if starts_with_text s pat then Some 0 else None
      end
  end.

(** Index of the first character of [s] that occurs in [set]. *)
Fixpoint find_first_of_text (set s : text) : option nat :=
  match s with
  | [] => None
  | ch :: s' =>
      if existsb (Ascii.eqb ch) set then Some 0
      else option_map S (find_first_of_text set s')
  end.

(* ================================================================== *)
(** ** Faults *)

Inductive fault : Type :=
| undefined_behaviour   (* a violated precondition of the library *)
| out_of_range.         (* std::out_of_range thrown *)

Inductive res (A : Type) : Type :=
| Ok (a : A)
| Fault (f : fault).

Arguments Ok {A} a.
Arguments Fault {A} f.

Definition res_bind {A B} (r : res A) (k : A -> res B) : res B :=
  match r with
  | Ok a => k a
  | Fault f => Fault f
  end.

(* ================================================================== *)
(** ** Pointers and [std::string_view] *)

Record pointer : Type := Ptr { p_block : nat; p_offset : nat }.

(** [p - q] for two [const char*]: defined inside one array only. *)
Definition ptr_diff (p q : pointer) : res Z :=
  if p_block p =? p_block q
  then Ok (Z.of_nat (p_offset p) - Z.of_nat (p_offset q))%Z
  else Fault undefined_behaviour.

Record string_view : Type := View {
  sv_block  : nat;     (* the array the view points into *)
  sv_before : text;    (* the array before data() *)
  sv_chars  : text;    (* data()[0 .. size()) *)
  sv_after  : text     (* the array from data() + size() to its NUL *)
}.

Module sv.

Definition data (v : string_view) : pointer :=
  Ptr (sv_block v) (length (sv_before v)).

Definition size (v : string_view) : nat := length (sv_chars v).

(** The C string at [data()]: what a function taking [const char*] reads. *)
Definition c_str (v : string_view) : text := sv_chars v ++ sv_after v.

Definition starts_with (v : string_view) (x : text) : bool :=
  starts_with_text (sv_chars v) x.

(** [find(str, pos)]; [None] is [npos]. *)
Definition find (v : string_view) (str : text) (pos : nat) : option nat :=
  if pos <=? size v
  then option_map (Nat.add pos) (find_text str (skipn pos (sv_chars v)))
  else None.

(** [find(ch)]. *)
Definition find_char (v : string_view) (ch : ascii) : option nat :=
  find v [ch] 0.

(** [rfind(str)]. *)
Definition rfind (v : string_view) (str : text) : option nat :=
  rfind_text str (sv_chars v).

(** [find_first_of(set)]. *)
Definition find_first_of (v : string_view) (set : text) : option nat :=
  find_first_of_text set (sv_chars v).

(** The view of [count] characters from [pos], both inside [v]. *)
Definition window (v : string_view) (pos count : nat) : string_view :=
  View (sv_block v)
       (sv_before v ++ firstn pos (sv_chars v))
       (firstn count (skipn pos (sv_chars v)))
       (skipn count (skipn pos (sv_chars v)) ++ sv_after v).

(** [substr(pos, count)]: throws if [pos > size()]; [count] is clipped to
    what remains. *)
Definition substr (v : string_view) (pos count : nat) : res string_view :=
  if pos <=? size v
  then Ok (window v pos (Nat.min count (size v - pos)))
  else Fault out_of_range.

(** [remove_prefix(n)]: the behaviour is undefined if [n > size()]. *)
Definition remove_prefix (v : string_view) (n : nat) : res string_view :=
  if n <=? size v
  then Ok (View (sv_block v)
                (sv_before v ++ firstn n (sv_chars v))
                (skipn n (sv_chars v))
                (sv_after v))
  else Fault undefined_behaviour.

End sv.

(* ================================================================== *)
(** ** The C library's numeric conversions, base 10 *)

Definition ULLONG_MAX : Z := 18446744073709551615.
Definition LLONG_MAX : Z := 9223372036854775807.
Definition LLONG_MIN : Z := -9223372036854775808.

Record strto_result : Type := StrTo {
  strto_value : Z;        (* the returned number *)
  strto_consumed : nat;   (* *endptr - nptr *)
  strto_erange : bool     (* errno == ERANGE *)
}.

(** Leading white space is skipped. *)
Fixpoint strto_spaces (s : text) (n : nat) : text * nat :=
  match s with
  | ch :: s' => if isspace ch then strto_spaces s' (S n) else (s, n)
  | [] => (s, n)
  end.

(** An optional sign. *)
Definition strto_sign (s : text) : bool * text * nat :=
  match s with
  | ch :: s' =>
      if Ascii.eqb ch "-"%char then (true, s', 1)
      else if Ascii.eqb ch "+"%char then (false, s', 1)
      else (false, s, 0)
  | [] => (false, s, 0)
  end.

(** The digits, accumulated from the left. *)
Fixpoint strto_digits (s : text) (acc : Z) (n : nat) : Z * nat :=
  match s with
  | ch :: s' =>
      if isdigit ch then strto_digits s' (acc * 10 + digit_value ch) (S n)
      else (acc, n)
  | [] => (acc, n)
  end.

(** [strtoull(nptr, &end, 10)]. With no digits nothing is converted and
    [end == nptr]; a value above [ULLONG_MAX] yields [ULLONG_MAX] and
    [ERANGE]; a minus sign negates the value in the unsigned type. *)
Definition strtoull (nptr : text) : strto_result :=
  let '(s1, nspaces) := strto_spaces nptr 0 in
  let '(negative, s2, nsign) := strto_sign s1 in
  let '(acc, ndigits) := strto_digits s2 0 0 in
  if ndigits =? 0 then StrTo 0 0 false
  else if (ULLONG_MAX <? acc)%Z
       then StrTo ULLONG_MAX (nspaces + nsign + ndigits) true
       else StrTo (if negative then (- acc) mod (ULLONG_MAX + 1) else acc)%Z
                  (nspaces + nsign + ndigits) false.

(** [strtoll(nptr, &end, 10)]. *)
Definition strtoll (nptr : text) : strto_result :=
  let '(s1, nspaces) := strto_spaces nptr 0 in
  let '(negative, s2, nsign) := strto_sign s1 in
  let '(acc, ndigits) := strto_digits s2 0 0 in
  let v := (if negative then - acc else acc)%Z in
  if ndigits =? 0 then StrTo 0 0 false
  else if (LLONG_MAX <? v)%Z
       then StrTo LLONG_MAX (nspaces + nsign + ndigits) true
       else if (v <? LLONG_MIN)%Z
            then StrTo LLONG_MIN (nspaces + nsign + ndigits) true
            else StrTo v (nspaces + nsign + ndigits) false.

(* ================================================================== *)
(** ** The cursor *)

Inductive MoveMode : Type := none | move_before | move_after.

Record PatternSeeker : Type := Seeker {
  m_str : string_view;
  m_originalPointer : pointer
}.

(** [static constexpr const char* EMPTY_STR = ""]: an array of its own,
    block 0, holding only the NUL. *)
Definition EMPTY_STR : pointer := Ptr 0 0.

(** [EMPTY_STR] converted to a [std::string_view]. *)
Definition EMPTY_STR_view : string_view := View 0 [] [] [].

Definition DOUBLE_QUOTE : text := [dquote].

(** An argument of type [std::string_view] whose [data()] may be null:
    [None] is the null view. *)
Definition or_EMPTY_STR (str : option string_view) : string_view :=
  match str with
  | Some v => v
  | None => EMPTY_STR_view
  end.

(** [PatternSeeker(std::string_view str, const char* originalPointer)]. *)
Definition PatternSeeker_derived (str : option string_view)
    (originalPointer : pointer) : PatternSeeker :=
  Seeker (or_EMPTY_STR str) originalPointer.

(** [PatternSeeker()], also written [return {};]. *)
Definition PatternSeeker_default : PatternSeeker :=
  Seeker EMPTY_STR_view EMPTY_STR.

(** [PatternSeeker(std::string_view str)]. *)
Definition PatternSeeker_new (str : option string_view) : PatternSeeker :=
  Seeker (or_EMPTY_STR str) (sv.data (or_EMPTY_STR str)).

(** A root cursor on the whole of a NUL-terminated array [s] in [block]. *)
Definition cursor_on (block : nat) (s : text) : PatternSeeker :=
  PatternSeeker_new (Some (View block [] s [])).

(** *** Methods that only read *)

Definition size (this : PatternSeeker) : nat := sv.size (m_str this).

Definition isEmpty (this : PatternSeeker) : bool := size this =? 0.

Definition isNotEmpty (this : PatternSeeker) : bool := negb (size this =? 0).

Definition to_string_view (this : PatternSeeker) : string_view := m_str this.

Definition to_string (this : PatternSeeker) : text := sv_chars (m_str this).

Definition startsWith (expected : text) (this : PatternSeeker) : bool :=
  sv.starts_with (m_str this) expected.

(** [m_str.data() - m_originalPointer], converted to [size_t]. *)
Definition getOffset (this : PatternSeeker) : res Z :=
  res_bind (ptr_diff (sv.data (m_str this)) (m_originalPointer this))
           (fun d => Ok (d mod (ULLONG_MAX + 1))%Z).

Definition getOriginalPosition (this : PatternSeeker) : res Z :=
  res_bind (ptr_diff (sv.data (m_str this)) (m_originalPointer this))
           (fun d => Ok (d mod (ULLONG_MAX + 1))%Z).

(** *** The monad of the methods that modify the receiver *)

Definition M (A : Type) : Type := PatternSeeker -> res (A * PatternSeeker).

Definition ret {A} (a : A) : M A := fun this => Ok (a, this).

Definition bind {A B} (m : M A) (k : A -> M B) : M B :=
  fun this =>
    match m this with
    | Ok (a, this') => k a this'
    | Fault f => Fault f
    end.

Declare Scope method_scope.
Delimit Scope method_scope with method.
Notation "x <- m ;; k" := (bind m (fun x => k))
  (at level 61, m at next level, right associativity) : method_scope.
Notation "m ;; k" := (bind m (fun _ => k))
  (at level 61, right associativity) : method_scope.
Local Open Scope method_scope.

(** A fallible library call made by a method. *)
Definition lift {A} (r : res A) : M A :=
  fun this => res_bind r (fun a => Ok (a, this)).

(** A [const] method called on the receiver. *)
Definition reading {A} (f : PatternSeeker -> A) : M A :=
  fun this => Ok (f this, this).

(** [m_str.remove_prefix(n)]. *)
Definition m_str_remove_prefix (n : nat) : M unit :=
  fun this =>
    res_bind (sv.remove_prefix (m_str this) n)
             (fun v => Ok (tt, Seeker v (m_originalPointer this))).

(** [auto copy = *this;] and a body that calls methods on [copy] only: the
    body runs on a copy of the receiver, which is dropped at the end. *)
Definition on_copy {A} (body : M A) : M A :=
  fun this =>
    match body this with
    | Ok (a, _) => Ok (a, this)
    | Fault f => Fault f
    end.

(** The [switch (mode)] shared by the searching methods. *)
Definition move (mode : MoveMode) (before after : nat) : M unit :=
  match mode with
  | move_before => m_str_remove_prefix before
  | move_after => m_str_remove_prefix after
  | none => ret tt
  end.

(** *** Positioning *)

Definition expect (expected : text) : M bool :=
  starts <- reading (startsWith expected) ;;
  if starts
  then m_str_remove_prefix (length expected) ;; ret true
  else ret false.

Definition to (expected : text) (mode : MoveMode) : M bool :=
  m <- reading m_str ;;
  match sv.find m expected 0 with
  | None => ret false
  | Some pos =>
      move mode pos (pos + length expected) ;;
      ret true
  end.

(** *** Extraction *)

(** [extract(std::string_view from, std::string_view to, MoveMode)]. *)
Definition extract_from_to (from to_ : text) (mode : MoveMode)
    : M PatternSeeker :=
  m <- reading m_str ;;
  match sv.find m from 0 with
  | None => ret PatternSeeker_default
  | Some found =>
      let startIt := found + length from in
      match sv.find m to_ startIt with
      | None => ret PatternSeeker_default
      | Some endIt =>
          substr <- lift (sv.substr m startIt (endIt - startIt)) ;;
          move mode (startIt - length from) (endIt + length to_) ;;
          orig <- reading m_originalPointer ;;
          ret (PatternSeeker_derived (Some substr) orig)
      end
  end.

(** [extract(std::string_view to, MoveMode)]. *)
Definition extract_to (to_ : text) (mode : MoveMode) : M PatternSeeker :=
  m <- reading m_str ;;
  match sv.find m to_ 0 with
  | None => ret PatternSeeker_default
  | Some endIt =>
      substr <- lift (sv.substr m 0 endIt) ;;
      move mode endIt (endIt + length to_) ;;
      orig <- reading m_originalPointer ;;
      ret (PatternSeeker_derived (Some substr) orig)
  end.

Definition extractUntilOneOf (to_ : text) (mode : MoveMode)
    : M PatternSeeker :=
  m <- reading m_str ;;
  match sv.find_first_of m to_ with
  | None => ret PatternSeeker_default
  | Some endIt =>
      substr <- lift (sv.substr m 0 endIt) ;;
      match mode with
      | move_after => m_str_remove_prefix (endIt + 1)
      | _ => ret tt
      end ;;
      orig <- reading m_originalPointer ;;
      ret (PatternSeeker_derived (Some substr) orig)
  end.

(** [INT_MAX] of a 32-bit [int]. *)
Definition INT_MAX : Z := 2147483647.

(** The [while (i < m_str.size())] loop of the bracket extraction; [rest]
    is [m_str] from index [i] on.  The result is [(i, depth)] at the exit.
    [depth] is an [int]: [++depth] at [INT_MAX] is undefined.  [--depth]
    never underflows, since [depth] is at least 1 when the loop reads a
    character. *)
Fixpoint extract_char_loop_int (start end_ : ascii) (rest : text)
    (i : nat) (depth : Z) : res (nat * Z) :=
  match rest with
  | [] => Ok (i, depth)
  | ch :: rest' =>
      let i := S i in
      if Ascii.eqb ch start
      then if (depth <? INT_MAX)%Z
           then extract_char_loop_int start end_ rest' i (depth + 1)%Z
           else Fault undefined_behaviour
      else if Ascii.eqb ch end_
           then let depth := (depth - 1)%Z in
                if (depth =? 0)%Z then Ok (i, depth)
                else extract_char_loop_int start end_ rest' i depth
           else extract_char_loop_int start end_ rest' i depth
  end.

(** [extract(char start, char end, MoveMode)]. *)
Definition extract_char (start end_ : ascii) (mode : MoveMode)
    : M PatternSeeker :=
  m <- reading m_str ;;
  match sv.find_char m start with
  | None => ret PatternSeeker_default
  | Some startIndex =>
      exit <- lift (extract_char_loop_int start end_
                      (skipn (startIndex + 1) (sv_chars m))
                      (startIndex + 1) 1%Z) ;;
      let '(i, depth) := exit in
      if negb (depth =? 0)%Z then ret PatternSeeker_default
      else
        substr <- lift (sv.substr m startIndex (i - startIndex)) ;;
        move mode startIndex i ;;
        orig <- reading m_originalPointer ;;
        ret (PatternSeeker_derived (Some substr) orig)
  end.

(** [extract(size_t size, MoveMode)]. *)
Definition extract_size (n : nat) (mode : MoveMode) : M PatternSeeker :=
  m <- reading m_str ;;
  substr <- lift (sv.substr m 0 n) ;;
  match mode with
  | move_after => m_str_remove_prefix n
  | _ => ret tt
  end ;;
  orig <- reading m_originalPointer ;;
  ret (PatternSeeker_derived (Some substr) orig).

Definition skip (n : nat) : M unit := m_str_remove_prefix n.

(** *** Numbers and white space *)

Definition takeUInt64 : M (option Z) :=
  m <- reading m_str ;;
  let r := strtoull (sv.c_str m) in
  let isError := strto_erange r || (strto_consumed r =? 0) in
  m_str_remove_prefix (strto_consumed r) ;;
  if isError then ret None else ret (Some (strto_value r)).

Definition takeUInt64_or (def : Z) : M Z :=
  r <- takeUInt64 ;;
  match r with
  | None => ret def
  | Some v => ret v
  end.

Definition takeInt64 : M (option Z) :=
  m <- reading m_str ;;
  let r := strtoll (sv.c_str m) in
  let isError := strto_erange r || (strto_consumed r =? 0) in
  m_str_remove_prefix (strto_consumed r) ;;
  if isError then ret None else ret (Some (strto_value r)).

Definition takeInt64_or (def : Z) : M Z :=
  r <- takeInt64 ;;
  match r with
  | None => ret def
  | Some v => ret v
  end.

(** [while (m_str.size() && isspace(m_str[0])) m_str.remove_prefix(1);]
    Every round removes one character, so [size()] rounds are enough. *)
Fixpoint skipWhiteSpaces_loop (rounds : nat) : M unit :=
  match rounds with
  | 0 => ret tt
  | S rounds' =>
      m <- reading m_str ;;
      match sv_chars m with
      | ch :: _ =>
          if isspace ch
          then m_str_remove_prefix 1 ;; skipWhiteSpaces_loop rounds'
          else ret tt
      | [] => ret tt
      end
  end.

Definition skipWhiteSpaces : M unit :=
  n <- reading size ;;
  skipWhiteSpaces_loop n.

(** *** JSON and XML helpers *)

Definition getJsonProp (prop : text) : M PatternSeeker :=
  on_copy (
    found <- to (DOUBLE_QUOTE ++ prop ++ DOUBLE_QUOTE) move_after ;;
    if negb found then ret PatternSeeker_default
    else
      skipWhiteSpaces ;;
      colon <- expect (lit ":") ;;
      if negb colon then ret PatternSeeker_default
      else
        skipWhiteSpaces ;;
        quoted <- expect DOUBLE_QUOTE ;;
        if quoted then extract_to DOUBLE_QUOTE none
        else
          array <- reading (startsWith (lit "[")) ;;
          if array then extract_char "["%char "]"%char none
          else
            object <- reading (startsWith (lit "{")) ;;
            if object then extract_char "{"%char "}"%char none
            else extractUntilOneOf
                   (lit ", " ++ [ascii_of_nat 13; ascii_of_nat 10] ++ lit "]}")
                   none).

Definition getXmlTag (prop : text) (mode : MoveMode) : M PatternSeeker :=
  m <- reading m_str ;;
  let startTag := lit "<" ++ prop in
  match sv.find m startTag 0 with
  | None => ret PatternSeeker_default
  | Some startPos =>
      let endTag := lit "</" ++ prop ++ lit ">" in
      match sv.find m endTag (startPos + length startTag) with
      | None => ret PatternSeeker_default
      | Some endPos =>
          substr <- lift (sv.substr m startPos
                            (endPos + length endTag - startPos)) ;;
          move mode startPos (endPos + length endTag) ;;
          orig <- reading m_originalPointer ;;
          ret (PatternSeeker_derived (Some substr) orig)
      end
  end.

(** The result is converted from a [std::string_view] by the public
    constructor.  [find('>') + 1] is 0 when nothing is found (npos + 1
    wraps around); [endPos - startPos] wraps around when
    [endPos < startPos], to a count that exceeds what remains of the view,
    which [substr] clips exactly as it clips [size()]. *)
Definition getXmlTagBody (prop : text) (mode : MoveMode) : M PatternSeeker :=
  res <- getXmlTag prop mode ;;
  if isEmpty res then ret PatternSeeker_default
  else
    let startPos :=
      match sv.find_char (m_str res) ">"%char with
      | Some p => p + 1
      | None => 0
      end in
    match sv.rfind (m_str res) (lit "</" ++ prop ++ lit ">") with
    | None => ret PatternSeeker_default
    | Some endPos =>
        let count :=
          if startPos <=? endPos then endPos - startPos
          else sv.size (m_str res) in
        body <- lift (sv.substr (m_str res) startPos count) ;;
        ret (PatternSeeker_new (Some body))
    end.

Definition getXmlAttr (prop : text) : M PatternSeeker :=
  on_copy (
    found <- to prop move_after ;;
    if negb found then ret PatternSeeker_default
    else
      skipWhiteSpaces ;;
      expect (lit "=") ;;
      skipWhiteSpaces ;;
      extract_from_to DOUBLE_QUOTE DOUBLE_QUOTE none).

(* ================================================================== *)
(** * Vocabulary of the properties *)

(** ** Occurrences of a literal in a text *)

(** [pat] occurs in [s] at index [i]. *)
Definition occurs_at (pat s : text) (i : nat) : Prop :=
  exists pre post, s = pre ++ pat ++ post /\ length pre = i.

(** The first occurrence of [pat] in [s] is at index [i]. *)
Definition first_at (pat s : text) (i : nat) : Prop :=
  occurs_at pat s i /\ forall j, j < i -> ~ occurs_at pat s j.

(** [pat] does not occur in [s]. *)
Definition absent (pat s : text) : Prop := forall i, ~ occurs_at pat s i.

(** ** The receiver and the cursors derived from it *)

(** The receiver after its view lost its first [n] characters. *)
Definition advanced (n : nat) (c : PatternSeeker) : PatternSeeker :=
  Seeker (View (sv_block (m_str c))
               (sv_before (m_str c) ++ firstn n (to_string c))
               (skipn n (to_string c))
               (sv_after (m_str c)))
         (m_originalPointer c).

(** The receiver after [switch (mode)]. *)
Definition moved (mode : MoveMode) (before after : nat) (c : PatternSeeker)
    : PatternSeeker :=
  match mode with
  | none => c
  | move_before => advanced before c
  | move_after => advanced after c
  end.

(** The derived cursor on [count] characters of the receiver's view from
    index [pos]; it keeps the receiver's origin. *)
Definition slice (pos count : nat) (c : PatternSeeker) : PatternSeeker :=
  Seeker (sv.window (m_str c) pos count) (m_originalPointer c).

(** ** Nesting depth *)

(** What one character adds to the nesting depth: [start] opens a
    level; [end_], when it is another character, closes one. *)
Definition depth_step (start end_ : ascii) (ch : ascii) : Z :=
  if Ascii.eqb ch start then 1
  else if Ascii.eqb ch end_ then -1 else 0.

(** The nesting depth after the text [s], counted from depth 0: the
    number of [start] in [s] less the number of [end_]. *)
Definition depth_of (start end_ : ascii) (s : text) : Z :=
  Z.of_nat (count_occ ascii_dec s start) -
  (if Ascii.eqb start end_ then 0
   else Z.of_nat (count_occ ascii_dec s end_)).


(** The depth never returns to zero in [s]. *)
Definition never_closes (start end_ : ascii) (s : text) : Prop :=
  forall n, 1 <= n <= length s -> depth_of start end_ (firstn n s) <> 0%Z.

(** The loop of the bracket extraction with a counter that has no upper
    limit: what [extract_char_loop_int] computes as long as its counter
    stays in range. *)
Fixpoint extract_char_loop (start end_ : ascii) (rest : text)
    (i : nat) (depth : Z) : nat * Z :=
  match rest with
  | [] => (i, depth)
  | ch :: rest' =>
      let i := S i in
      if Ascii.eqb ch start
      then extract_char_loop start end_ rest' i (depth + 1)%Z
      else if Ascii.eqb ch end_
           then let depth := (depth - 1)%Z in
                if (depth =? 0)%Z then (i, depth)
                else extract_char_loop start end_ rest' i depth
           else extract_char_loop start end_ rest' i depth
  end.

(** The view holds no more than [INT_MAX] occurrences of [ch]: the counter
    of a bracket extraction that opens on [ch] stays in range. *)
Definition counts_in_int (ch : ascii) (c : PatternSeeker) : Prop :=
  (Z.of_nat (count_occ ascii_dec (to_string c) ch) <= INT_MAX)%Z.

(** ** The numeric grammar *)

(** The number a run of decimal digits denotes. *)
Fixpoint decimal_value (ds : text) : Z :=
  match ds with
  | [] => 0
  | d :: ds' => digit_value d * 10 ^ Z.of_nat (length ds') + decimal_value ds'
  end.

(** The parts of a text the numeric grammar reads: leading white space,
    an optional sign, and the longest run of digits after them. *)
Definition spaces_of (s : text) : text := take_while isspace s.

Definition sign_chars (s : text) : text :=
  match s with
  | ch :: _ =>
      if Ascii.eqb ch "-"%char || Ascii.eqb ch "+"%char then [ch] else []
  | [] => []
  end.

Definition sign_of (s : text) : text := sign_chars (drop_while isspace s).

Definition is_minus (sign : text) : bool :=
  match sign with
  | ch :: _ => Ascii.eqb ch "-"%char
  | [] => false
  end.

Definition digits_of (s : text) : text :=
  take_while isdigit (skipn (length (sign_of s)) (drop_while isspace s)).

(** How many characters of [s] the numeric grammar takes: none unless
    there is a digit. *)
Definition numeric_length (s : text) : nat :=
  match digits_of s with
  | [] => 0
  | _ :: _ => length (spaces_of s) + length (sign_of s) + length (digits_of s)
  end.

(** The number the sign and the digits of [s] denote. *)
Definition signed_value (s : text) : Z :=
  if is_minus (sign_of s) then (- decimal_value (digits_of s))%Z
  else decimal_value (digits_of s).

(** What reading [s] as an unsigned 64-bit number gives: nothing without a
    digit or above [ULLONG_MAX]; a minus sign negates modulo 2^64. *)
Definition unsigned_result (s : text) : option Z :=
  match digits_of s with
  | [] => None
  | _ :: _ =>
      if (decimal_value (digits_of s) <=? ULLONG_MAX)%Z
      then Some (if is_minus (sign_of s)
                 then (- decimal_value (digits_of s)) mod (ULLONG_MAX + 1)
                 else decimal_value (digits_of s))%Z
      else None
  end.

(** What reading [s] as a signed 64-bit number gives: nothing without a
    digit or outside [LLONG_MIN .. LLONG_MAX]. *)
Definition signed_result (s : text) : option Z :=
  match digits_of s with
  | [] => None
  | _ :: _ =>
      if ((LLONG_MIN <=? signed_value s) && (signed_value s <=? LLONG_MAX))%Z
      then Some (signed_value s)
      else None
  end.

(** ** Properties of methods *)




(** A method that leaves the receiver's origin as it was. *)
Definition keeps_origin {A} (m : M A) : Prop :=
  forall c a c', m c = Ok (a, c') ->
    m_originalPointer c' = m_originalPointer c.

(** A method whose result is the empty sentinel or a cursor with the
    receiver's origin. *)
Definition derives (m : M PatternSeeker) : Prop :=
  forall c r c', m c = Ok (r, c') ->
    m_originalPointer c' = m_originalPointer c /\
    (r = PatternSeeker_default \/
     m_originalPointer r = m_originalPointer c).

(** ** The origin invariant *)

(** The origin lies in the array of the view, at or before the view's
    start: [m_str.data() - m_originalPointer] is defined and not negative. *)
Definition rooted (c : PatternSeeker) : Prop :=
  p_block (m_originalPointer c) = sv_block (m_str c) /\
  p_offset (m_originalPointer c) <= length (sv_before (m_str c)).

(** The end of the view is an offset that fits [size_t]. *)
Definition addressable (c : PatternSeeker) : Prop :=
  (Z.of_nat (length (sv_before (m_str c)) + size c) <= ULLONG_MAX)%Z.

(** A method that keeps a rooted receiver rooted. *)
Definition keeps_rooted {A} (m : M A) : Prop :=
  forall c a c', rooted c -> m c = Ok (a, c') -> rooted c'.

(** A method that keeps a rooted receiver rooted and returns a rooted
    cursor. *)
Definition yields_rooted (m : M PatternSeeker) : Prop :=
  forall c r c', rooted c -> m c = Ok (r, c') -> rooted c' /\ rooted r.

(** The last occurrence of [pat] in [s] is at index [i]. *)
Definition last_at (pat s : text) (i : nat) : Prop :=
  occurs_at pat s i /\ forall j, i < j -> ~ occurs_at pat s j.

(** The characters that end an unquoted JSON value in [getJsonProp]. *)
Definition json_terminators : text :=
  lit ", " ++ [ascii_of_nat 13; ascii_of_nat 10] ++ lit "]}".

(** The part of [getJsonProp] that reads the value, once the name, the
    colon and the white space around it are behind the view. *)
Definition json_value : M PatternSeeker :=
  quoted <- expect DOUBLE_QUOTE ;;
  if quoted then extract_to DOUBLE_QUOTE none
  else
    array <- reading (startsWith (lit "[")) ;;
    if array then extract_char "["%char "]"%char none
    else
      object <- reading (startsWith (lit "{")) ;;
      if object then extract_char "{"%char "}"%char none
      else extractUntilOneOf json_terminators none.

(** ** Sample inputs *)

Definition xml_sample : PatternSeeker :=
  cursor_on 1 (lit "<root><name>John</name><age>30</age></root>").

(** The cursor [getXmlTagBody("name")] returns on the sample. *)
Definition xml_body : PatternSeeker :=
  Seeker (View 1 (lit "<root><name>") (lit "John")
               (lit "</name><age>30</age></root>"))
         (Ptr 1 12).

Definition json_sample : PatternSeeker :=
  cursor_on 1
    (unq ("{'name': 'John', 'age': 30, 'array': [1,2,3], "
          ++ "'obj': {'nested': 'value'}}")).


Definition hello_sample : PatternSeeker :=
  cursor_on 1 (lit "Hello, <name>World</name>!").

Definition attr_sample : PatternSeeker :=
  cursor_on 1 (unq "<tag id '123'>").



(** An element in which the name [id] first occurs inside the name of
    another attribute. *)
Definition shadowed_attr_sample : PatternSeeker :=
  cursor_on 1 (unq "<a id2 'x' id '7'>").

(** A derived cursor on the three characters [-42] inside [x=-42;]. *)
Definition number_sample : PatternSeeker :=
  slice 2 3 (cursor_on 1 (lit "x=-42;")).

Definition spaced_number_sample : PatternSeeker := cursor_on 1 (lit " 42").

(** A derived cursor on [-9223372036854775808], the least signed 64-bit
    number, inside [n=-9223372036854775808;]. *)
Definition signed_sample : PatternSeeker :=
  slice 2 20 (cursor_on 1 (lit "n=-9223372036854775808;")).

(** An object whose name is not followed by a colon. *)
Definition no_colon_sample : PatternSeeker :=
  cursor_on 1 (unq "{'a' 1}").

(** A number that runs to the end of the view. *)
Definition open_number_sample : PatternSeeker :=
  cursor_on 1 (unq "'age': 30").

Definition attrs_sample : PatternSeeker :=
  cursor_on 1 (unq "<tag id='123' class = 'example'>content</tag>").

(** The view of one space between [a] and [12] in [a 12]. *)
Definition blank_sample : PatternSeeker :=
  slice 1 1 (cursor_on 1 (lit "a 12")).

(* ================================================================== *)
(** * Facts about text *)

Section TextFacts.

Lemma starts_with_text_iff (p s : text) :
  starts_with_text s p = true <-> exists rest, s = p ++ rest.
Proof.
  revert s. induction p as [|a p IH]; intros s; simpl.
  - split; [intros _; now exists s | reflexivity].
  - destruct s as [|ch s].
    + split; [discriminate | intros [rest H]; discriminate].
    + rewrite andb_true_iff, Ascii.eqb_eq, IH. split.
      * intros [-> [rest ->]]. now exists rest.
      * intros [rest H]. injection H as -> ->.
        split; [reflexivity | now exists rest].
Qed.

Lemma starts_with_text_app (p rest : text) :
  starts_with_text (p ++ rest) p = true.
Proof. apply starts_with_text_iff. now exists rest. Qed.

Lemma starts_with_text_length (p s : text) :
  starts_with_text s p = true -> length p <= length s.
Proof.
  intros H. apply starts_with_text_iff in H as [rest ->].
  rewrite length_app. lia.
Qed.

Lemma starts_with_text_skipn (p s : text) :
  starts_with_text s p = true -> s = p ++ skipn (length p) s.
Proof.
  intros H. apply starts_with_text_iff in H as [rest ->].
  now rewrite skipn_app, skipn_all, Nat.sub_diag.
Qed.

Lemma occurs_at_0 (pat s : text) :
  occurs_at pat s 0 <-> starts_with_text s pat = true.
Proof.
  rewrite starts_with_text_iff. split.
  - intros (pre & post & -> & H). destruct pre; [|discriminate].
    now exists post.
  - intros [rest ->]. now exists [], rest.
Qed.

Lemma occurs_at_S (pat : text) (ch : ascii) (s : text) (i : nat) :
  occurs_at pat (ch :: s) (S i) <-> occurs_at pat s i.
Proof.
  split.
  - intros (pre & post & H & L). destruct pre as [|a pre]; [discriminate|].
    injection H as _ ->. injection L as L. now exists pre, post.
  - intros (pre & post & -> & L). exists (ch :: pre), post. simpl.
    now rewrite L.
Qed.

Lemma occurs_at_bound (pat s : text) (i : nat) :
  occurs_at pat s i -> i + length pat <= length s.
Proof.
  intros (pre & post & -> & <-). rewrite !length_app. lia.
Qed.

Lemma find_text_nil (pat : text) :
  find_text pat [] = if starts_with_text [] pat then Some 0 else None.
Proof. reflexivity. Qed.

Lemma find_text_cons (pat : text) (ch : ascii) (s : text) :
  find_text pat (ch :: s) =
  if starts_with_text (ch :: s) pat then Some 0
  else option_map S (find_text pat s).
Proof. reflexivity. Qed.

Lemma find_text_Some (pat s : text) (i : nat) :
  find_text pat s = Some i <-> first_at pat s i.
Proof.
  revert i. induction s as [|ch s IH]; intros i.
  - rewrite find_text_nil. destruct (starts_with_text [] pat) eqn:E.
    + apply occurs_at_0 in E. split.
      * intros [= <-]. split; [assumption | lia].
      * intros [H _]. apply occurs_at_bound in H. simpl in H.
        f_equal. lia.
    + split; [discriminate|]. intros [H _].
      pose proof (occurs_at_bound H) as B. simpl in B.
      assert (i = 0) by lia. subst. apply occurs_at_0 in H. congruence.
  - rewrite find_text_cons. destruct (starts_with_text (ch :: s) pat) eqn:E.
    + apply occurs_at_0 in E. split.
      * intros [= <-]. split; [assumption | lia].
      * intros [_ H]. destruct i as [|i]; [reflexivity|].
        exfalso. apply (H 0); [lia | assumption].
    + assert (N : ~ occurs_at pat (ch :: s) 0)
        by (rewrite occurs_at_0; congruence).
      split.
      * destruct (find_text pat s) as [k|] eqn:F; [|discriminate].
        intros [= <-]. destruct (proj1 (IH k) eq_refl) as [F1 F2]. split.
        -- now apply occurs_at_S.
        -- intros [|j] Hj; [assumption|].
           rewrite occurs_at_S. apply F2. lia.
      * intros [H1 H2]. destruct i as [|i]; [contradiction|].
        assert (F : find_text pat s = Some i).
        { apply IH. split; [now apply occurs_at_S in H1|].
          intros j Hj Hocc. apply (H2 (S j)); [lia|]. now apply occurs_at_S. }
        now rewrite F.
Qed.

Lemma find_text_None (pat s : text) :
  find_text pat s = None <-> absent pat s.
Proof.
  induction s as [|ch s IH].
  - rewrite find_text_nil. destruct (starts_with_text [] pat) eqn:E.
    + split; [discriminate|]. intros H. apply occurs_at_0 in E.
      now apply H in E.
    + split; [|reflexivity]. intros _ i H.
      pose proof (occurs_at_bound H) as B. simpl in B.
      assert (i = 0) by lia. subst. apply occurs_at_0 in H. congruence.
  - rewrite find_text_cons. destruct (starts_with_text (ch :: s) pat) eqn:E.
    + split; [discriminate|]. intros H. apply occurs_at_0 in E.
      now apply H in E.
    + destruct (find_text pat s) as [k|] eqn:F.
      * split; [discriminate|]. intros H. exfalso.
        apply find_text_Some in F as [F _].
        apply (H (S k)). now apply occurs_at_S.
      * split; [|reflexivity]. intros _ [|i] H.
        -- apply occurs_at_0 in H. congruence.
        -- apply occurs_at_S in H. revert H. now apply IH.
Qed.

Lemma find_text_bound (pat s : text) (i : nat) :
  find_text pat s = Some i -> i + length pat <= length s.
Proof.
  intros H. apply find_text_Some in H as [H _]. now apply occurs_at_bound.
Qed.

Lemma find_text_split (pat s : text) (i : nat) :
  find_text pat s = Some i ->
  s = firstn i s ++ pat ++ skipn (i + length pat) s.
Proof.
  intros H. apply find_text_Some in H as [(pre & post & -> & <-) _].
  rewrite firstn_app, firstn_all, Nat.sub_diag, firstn_O, app_nil_r.
  rewrite skipn_app, skipn_all2 by lia.
  replace (length pre + length pat - length pre) with (length pat) by lia.
  rewrite skipn_app, skipn_all, Nat.sub_diag. reflexivity.
Qed.

Lemma firstn_plus (a b : nat) (s : text) :
  firstn (a + b) s = firstn a s ++ firstn b (skipn a s).
Proof.
  revert s. induction a as [|a IH]; intros s; [reflexivity|].
  destruct s as [|ch s]; simpl.
  - now rewrite firstn_nil.
  - now rewrite IH.
Qed.

Lemma find_first_of_text_bound (set s : text) (i : nat) :
  find_first_of_text set s = Some i -> i < length s.
Proof.
  revert i. induction s as [|ch s IH]; intros i; simpl; [discriminate|].
  destruct (existsb (Ascii.eqb ch) set).
  - intros [= <-]. lia.
  - destruct (find_first_of_text set s) as [k|]; [|discriminate].
    intros [= <-]. specialize (IH k eq_refl). lia.
Qed.

End TextFacts.

(* ================================================================== *)
(** * Facts about views and the receiver *)

Section CursorFacts.

Lemma advanced_0 (c : PatternSeeker) : advanced 0 c = c.
Proof.
  destruct c as [[b pre cs post] o]. unfold advanced. simpl.
  now rewrite app_nil_r.
Qed.

Lemma advanced_advanced (a b : nat) (c : PatternSeeker) :
  advanced b (advanced a c) = advanced (a + b) c.
Proof.
  destruct c as [[blk pre cs post] o]. unfold advanced, to_string. simpl.
  now rewrite skipn_skipn, <- app_assoc, firstn_plus, (Nat.add_comm b a).
Qed.

Lemma slice_advanced (n pos count : nat) (c : PatternSeeker) :
  slice pos count (advanced n c) = slice (n + pos) count c.
Proof.
  destruct c as [[blk pre cs post] o].
  unfold slice, sv.window, advanced, to_string. simpl.
  now rewrite skipn_skipn, <- app_assoc, firstn_plus, (Nat.add_comm pos n).
Qed.

Lemma to_string_advanced (n : nat) (c : PatternSeeker) :
  to_string (advanced n c) = skipn n (to_string c).
Proof. reflexivity. Qed.

Lemma to_string_slice (pos count : nat) (c : PatternSeeker) :
  to_string (slice pos count c) = firstn count (skipn pos (to_string c)).
Proof. reflexivity. Qed.

Lemma origin_advanced (n : nat) (c : PatternSeeker) :
  m_originalPointer (advanced n c) = m_originalPointer c.
Proof. reflexivity. Qed.

Lemma origin_slice (pos count : nat) (c : PatternSeeker) :
  m_originalPointer (slice pos count c) = m_originalPointer c.
Proof. reflexivity. Qed.

Lemma origin_moved (mode : MoveMode) (a b : nat) (c : PatternSeeker) :
  m_originalPointer (moved mode a b c) = m_originalPointer c.
Proof. now destruct mode. Qed.

Lemma size_advanced (n : nat) (c : PatternSeeker) :
  size (advanced n c) = size c - n.
Proof. unfold size, sv.size. simpl. apply length_skipn. Qed.

Lemma remove_prefix_ok (n : nat) (c : PatternSeeker) :
  n <= size c -> m_str_remove_prefix n c = Ok (tt, advanced n c).
Proof.
  intros H. unfold m_str_remove_prefix, sv.remove_prefix.
  apply Nat.leb_le in H. unfold size in H. now rewrite H.
Qed.

Lemma remove_prefix_overrun (n : nat) (c : PatternSeeker) :
  size c < n -> m_str_remove_prefix n c = Fault undefined_behaviour.
Proof.
  intros H. unfold m_str_remove_prefix, sv.remove_prefix.
  apply Nat.leb_gt in H. unfold size in H. now rewrite H.
Qed.

Lemma move_ok (mode : MoveMode) (before after : nat) (c : PatternSeeker) :
  before <= size c -> after <= size c ->
  move mode before after c = Ok (tt, moved mode before after c).
Proof.
  intros Hb Ha. destruct mode; simpl;
    [reflexivity | now apply remove_prefix_ok | now apply remove_prefix_ok].
Qed.

Lemma substr_ok (v : string_view) (pos count : nat) :
  pos + count <= sv.size v ->
  sv.substr v pos count = Ok (sv.window v pos count).
Proof.
  intros H. unfold sv.substr.
  assert (L : (pos <=? sv.size v) = true) by (apply Nat.leb_le; lia).
  rewrite L. do 2 f_equal. lia.
Qed.

Lemma substr_clipped (v : string_view) (pos count : nat) :
  pos <= sv.size v -> sv.size v <= pos + count ->
  sv.substr v pos count = Ok (sv.window v pos (sv.size v - pos)).
Proof.
  intros H1 H2. unfold sv.substr.
  apply Nat.leb_le in H1. rewrite H1. do 2 f_equal. lia.
Qed.

Lemma find_0 (v : string_view) (str : text) :
  sv.find v str 0 = find_text str (sv_chars v).
Proof.
  unfold sv.find. simpl. now destruct (find_text str (sv_chars v)).
Qed.

Lemma find_from (v : string_view) (str : text) (pos : nat) :
  pos <= sv.size v ->
  sv.find v str pos =
  option_map (Nat.add pos) (find_text str (skipn pos (sv_chars v))).
Proof.
  intros H. unfold sv.find. apply Nat.leb_le in H. now rewrite H.
Qed.

(** *** [expect] and [to] in closed form *)

Lemma expect_run (s : text) (c : PatternSeeker) :
  expect s c =
  if startsWith s c then Ok (true, advanced (length s) c) else Ok (false, c).
Proof.
  unfold expect, bind, reading, ret.
  destruct (startsWith s c) eqn:E; [|reflexivity].
  rewrite remove_prefix_ok; [reflexivity|].
  now apply starts_with_text_length.
Qed.

Lemma to_run (expected : text) (mode : MoveMode) (c : PatternSeeker) :
  to expected mode c =
  match find_text expected (to_string c) with
  | Some pos => Ok (true, moved mode pos (pos + length expected) c)
  | None => Ok (false, c)
  end.
Proof.
  unfold to, bind, reading, ret. rewrite find_0. fold (to_string c).
  destruct (find_text expected (to_string c)) as [pos|] eqn:F; [|reflexivity].
  apply find_text_bound in F.
  rewrite move_ok; [reflexivity | |];
    unfold size, sv.size; fold (to_string c); lia.
Qed.

End CursorFacts.

(* ================================================================== *)
(** * The extraction methods in closed form

    Each lemma evaluates a method on an arbitrary receiver: the library
    calls it makes are within their preconditions, so no fault remains. *)

Section ExtractionFacts.

Lemma size_length (c : PatternSeeker) : size c = length (to_string c).
Proof. reflexivity. Qed.

Lemma extract_from_to_run (from to_ : text) (mode : MoveMode)
    (c : PatternSeeker) :
  extract_from_to from to_ mode c =
  match find_text from (to_string c) with
  | None => Ok (PatternSeeker_default, c)
  | Some found =>
      match find_text to_ (skipn (found + length from) (to_string c)) with
      | None => Ok (PatternSeeker_default, c)
      | Some k =>
          Ok (slice (found + length from) k c,
              moved mode found (found + length from + k + length to_) c)
      end
  end.
Proof.
  unfold extract_from_to, bind, reading, ret. rewrite find_0.
  fold (to_string c).
  destruct (find_text from (to_string c)) as [found|] eqn:F; [|reflexivity].
  apply find_text_bound in F.
  rewrite find_from by (unfold sv.size; fold (to_string c); lia).
  fold (to_string c).
  destruct (find_text to_ (skipn (found + length from) (to_string c)))
    as [k|] eqn:T; [|reflexivity].
  apply find_text_bound in T. rewrite length_skipn in T. simpl.
  unfold lift. rewrite substr_ok
    by (unfold sv.size; fold (to_string c); lia).
  simpl. rewrite move_ok by (rewrite size_length; lia).
  unfold slice, PatternSeeker_derived. simpl. rewrite origin_moved.
  replace (found + length from + k - (found + length from)) with k by lia.
  replace (found + length from - length from) with found by lia.
  reflexivity.
Qed.

Lemma extract_to_run (to_ : text) (mode : MoveMode) (c : PatternSeeker) :
  extract_to to_ mode c =
  match find_text to_ (to_string c) with
  | None => Ok (PatternSeeker_default, c)
  | Some endIt =>
      Ok (slice 0 endIt c, moved mode endIt (endIt + length to_) c)
  end.
Proof.
  unfold extract_to, bind, reading, ret. rewrite find_0.
  fold (to_string c).
  destruct (find_text to_ (to_string c)) as [endIt|] eqn:F; [|reflexivity].
  apply find_text_bound in F.
  unfold lift. rewrite substr_ok
    by (unfold sv.size; fold (to_string c); lia).
  simpl. rewrite move_ok by (rewrite size_length; lia).
  unfold slice, PatternSeeker_derived. simpl. now rewrite origin_moved.
Qed.

Lemma extractUntilOneOf_run (set : text) (mode : MoveMode)
    (c : PatternSeeker) :
  extractUntilOneOf set mode c =
  match find_first_of_text set (to_string c) with
  | None => Ok (PatternSeeker_default, c)
  | Some endIt =>
      Ok (slice 0 endIt c,
          match mode with
          | move_after => advanced (endIt + 1) c
          | _ => c
          end)
  end.
Proof.
  unfold extractUntilOneOf, bind, reading, ret, sv.find_first_of.
  fold (to_string c).
  destruct (find_first_of_text set (to_string c)) as [endIt|] eqn:F;
    [|reflexivity].
  apply find_first_of_text_bound in F.
  unfold lift. rewrite substr_ok
    by (unfold sv.size; fold (to_string c); lia).
  simpl. destruct mode; try reflexivity.
  rewrite remove_prefix_ok by (rewrite size_length; lia). reflexivity.
Qed.

Lemma extract_char_loop_bounds (start end_ : ascii) (rest : text)
    (i : nat) (depth : Z) :
  i <= fst (extract_char_loop start end_ rest i depth) <= i + length rest.
Proof.
  revert i depth. induction rest as [|ch rest IH]; intros i depth; simpl.
  - lia.
  - destruct (Ascii.eqb ch start).
    + specialize (IH (S i) (depth + 1)%Z). lia.
    + destruct (Ascii.eqb ch end_).
      * destruct (depth - 1 =? 0)%Z; simpl.
        -- lia.
        -- specialize (IH (S i) (depth - 1)%Z). lia.
      * specialize (IH (S i) depth). lia.
Qed.

Lemma extract_char_loop_int_Ok (start end_ : ascii) (rest : text)
    (i : nat) (depth : Z) (exit : nat * Z) :
  extract_char_loop_int start end_ rest i depth = Ok exit ->
  exit = extract_char_loop start end_ rest i depth.
Proof.
  revert i depth. induction rest as [|ch rest IH]; intros i depth;
    cbn [extract_char_loop_int extract_char_loop].
  - congruence.
  - destruct (Ascii.eqb ch start).
    + destruct (depth <? INT_MAX)%Z; [apply IH|discriminate].
    + destruct (Ascii.eqb ch end_); [|apply IH].
      destruct (depth - 1 =? 0)%Z; [congruence|apply IH].
Qed.


Lemma extract_char_run (start end_ : ascii) (mode : MoveMode)
    (c : PatternSeeker) :
  extract_char start end_ mode c =
  match find_text [start] (to_string c) with
  | None => Ok (PatternSeeker_default, c)
  | Some startIndex =>
      match extract_char_loop_int start end_
              (skipn (startIndex + 1) (to_string c)) (startIndex + 1) 1%Z with
      | Fault f => Fault f
      | Ok (i, depth) =>
          if (depth =? 0)%Z
          then Ok (slice startIndex (i - startIndex) c,
                   moved mode startIndex i c)
          else Ok (PatternSeeker_default, c)
      end
  end.
Proof.
  unfold extract_char, bind, reading, ret, sv.find_char. rewrite find_0.
  fold (to_string c).
  destruct (find_text [start] (to_string c)) as [si|] eqn:F; [|reflexivity].
  apply find_text_bound in F. simpl in F.
  unfold lift at 1.
  destruct (extract_char_loop_int start end_ (skipn (si + 1) (to_string c))
              (si + 1) 1%Z) as [[i depth]|f] eqn:L; [|reflexivity].
  cbn [res_bind]. apply extract_char_loop_int_Ok in L.
  pose proof (extract_char_loop_bounds start end_
                (skipn (si + 1) (to_string c)) (si + 1) 1%Z) as B.
  rewrite length_skipn, <- L in B.
  simpl in B. destruct (depth =? 0)%Z; [|reflexivity]. simpl.
  unfold lift. rewrite substr_ok
    by (unfold sv.size; fold (to_string c); lia).
  simpl. rewrite move_ok by (rewrite size_length; lia).
  unfold slice, PatternSeeker_derived. simpl. now rewrite origin_moved.
Qed.

Lemma extract_size_run (n : nat) (mode : MoveMode) (c : PatternSeeker) :
  extract_size n mode c =
  match mode with
  | move_after =>
      if n <=? size c then Ok (slice 0 n c, advanced n c)
      else Fault undefined_behaviour
  | _ => Ok (slice 0 (Nat.min n (size c)) c, c)
  end.
Proof.
  unfold extract_size, bind, reading, ret, lift, sv.substr. simpl.
  rewrite Nat.sub_0_r. fold (size c).
  destruct mode; try reflexivity.
  destruct (Nat.leb_spec n (size c)) as [H|H].
  - rewrite remove_prefix_ok by assumption.
    now rewrite Nat.min_l by assumption.
  - now rewrite remove_prefix_overrun by assumption.
Qed.

Lemma skipWhiteSpaces_loop_run (rounds : nat) (c : PatternSeeker) :
  size c <= rounds ->
  skipWhiteSpaces_loop rounds c =
  Ok (tt, advanced (length (take_while isspace (to_string c))) c).
Proof.
  revert c. induction rounds as [|rounds IH]; intros c H.
  - rewrite size_length in H. destruct (to_string c) eqn:E; [|simpl in H; lia].
    simpl. now rewrite advanced_0.
  - simpl. unfold bind, reading, ret. fold (to_string c).
    rewrite size_length in H.
    destruct (to_string c) as [|ch s] eqn:E; simpl.
    + now rewrite advanced_0.
    + destruct (isspace ch); [|now rewrite advanced_0].
      rewrite remove_prefix_ok by (rewrite size_length, E; simpl; lia).
      rewrite IH.
      * rewrite advanced_advanced, to_string_advanced, E. reflexivity.
      * rewrite size_advanced, size_length, E. simpl in *. lia.
Qed.

Lemma skipWhiteSpaces_run (c : PatternSeeker) :
  skipWhiteSpaces c =
  Ok (tt, advanced (length (take_while isspace (to_string c))) c).
Proof.
  unfold skipWhiteSpaces, bind, reading.
  now apply skipWhiteSpaces_loop_run.
Qed.

End ExtractionFacts.

(* ================================================================== *)
(** * Properties of the cursor *)

(** ** [expect] and [startsWith] *)

(** C7: [expect s] returns true and advances the view by exactly the
    length of [s] precisely when [startsWith s] held before the call;
    when [startsWith s] was false it returns false and leaves the view
    unchanged.  [startsWith s] holds exactly when the view is [s] followed
    by some rest. *)
Theorem expect_consumes_iff_startsWith (c : PatternSeeker) (s : text) :
  (startsWith s c = true <-> exists rest, to_string c = s ++ rest) /\
  (startsWith s c = true ->
     exists c', expect s c = Ok (true, c') /\
       c' = advanced (length s) c /\
       to_string c = s ++ to_string c' /\
       size c' + length s = size c /\
       p_offset (sv.data (m_str c')) =
         p_offset (sv.data (m_str c)) + length s) /\
  (startsWith s c = false -> expect s c = Ok (false, c)) /\
  (forall c', expect s c = Ok (true, c') -> startsWith s c = true).
Proof.
  repeat split.
  - intros H. now apply starts_with_text_iff.
  - intros H. now apply starts_with_text_iff.
  - intros H. exists (advanced (length s) c).
    rewrite expect_run, H. repeat split.
    + rewrite to_string_advanced. now apply starts_with_text_skipn.
    + rewrite size_advanced. apply starts_with_text_length in H.
      unfold size, sv.size. lia.
    + simpl. rewrite length_app, length_firstn.
      apply starts_with_text_length in H. unfold to_string. lia.
  - intros H. now rewrite expect_run, H.
  - intros c' H. rewrite expect_run in H.
    destruct (startsWith s c); [reflexivity | discriminate].
Qed.

(** ** Fixed-length extraction *)

(** X21: outside [move_after], or when [n] characters remain,
    [extract(n, mode)] yields the first [min n size] characters and keeps
    the origin; the receiver moves only with [move_after]. *)
Lemma extract_size_truncates (n : nat) (mode : MoveMode) (c : PatternSeeker) :
  mode <> move_after \/ n <= size c ->
  exists r c', extract_size n mode c = Ok (r, c') /\
    to_string r = firstn (Nat.min n (size c)) (to_string c) /\
    m_originalPointer r = m_originalPointer c /\
    c' = match mode with move_after => advanced n c | _ => c end.
Proof.
  intros H. rewrite extract_size_run. destruct mode.
  - eexists _, _. repeat split.
  - eexists _, _. repeat split.
  - destruct H as [H|H]; [congruence|].
    pose proof H as L. apply Nat.leb_le in L. rewrite L.
    eexists _, _. repeat split. simpl. now rewrite Nat.min_l.
Qed.

(** With [move_after] and [n] above the size of the view, the call to
    [remove_prefix] is outside its precondition. *)
Lemma extract_size_overrun (n : nat) (c : PatternSeeker) :
  size c < n -> extract_size n move_after c = Fault undefined_behaviour.
Proof.
  intros H. rewrite extract_size_run. apply Nat.leb_gt in H. now rewrite H.
Qed.

(** C1: on the three-character view [abc], [extract(5, move_after)] does
    not leave the source empty: [substr] truncates the result, but
    [remove_prefix(5)] is called on a view of size 3, which is undefined
    behaviour.  With the mode [none] the same call returns the truncated
    result [abc]. *)
Theorem extract_size_move_after_overrun :
  extract_size 5 move_after (cursor_on 1 (lit "abc")) =
    Fault undefined_behaviour /\
  extract_size 5 none (cursor_on 1 (lit "abc")) =
    Ok (cursor_on 1 (lit "abc"), cursor_on 1 (lit "abc")).
Proof. split; reflexivity. Qed.

(** ** The origin of a derived cursor *)

(** C2: on [<root><name>John</name><age>30</age></root>],
    [getXmlTagBody("name")] returns the view [John], which starts 12
    characters into the buffer, but its origin is its own start and not the
    receiver's, and [getOffset()] is 0.  [getXmlTag("name")] on the same
    receiver keeps the origin and reports offset 6. *)
Theorem getXmlTagBody_resets_origin :
  getXmlTagBody (lit "name") none xml_sample = Ok (xml_body, xml_sample) /\
  to_string xml_body = lit "John" /\
  sv.data (m_str xml_body) = Ptr 1 12 /\
  m_originalPointer xml_sample = Ptr 1 0 /\
  m_originalPointer xml_body = Ptr 1 12 /\
  getOffset xml_body = Ok 0%Z /\
  getOriginalPosition xml_body = Ok 0%Z /\
  getXmlTag (lit "name") none xml_sample =
    Ok (slice 6 17 xml_sample, xml_sample) /\
  to_string (slice 6 17 xml_sample) = lit "<name>John</name>" /\
  m_originalPointer (slice 6 17 xml_sample) = Ptr 1 0 /\
  getOffset (slice 6 17 xml_sample) = Ok 6%Z.
Proof.
  repeat split; vm_compute; reflexivity.
Qed.

(** ** JSON properties *)

(** C8: on the sample object, [getJsonProp] yields [John] for [name], [30]
    for [age], [[1,2,3]] for [array] and [{"nested": "value"}] for [obj];
    the receiver is unchanged. *)
Theorem getJsonProp_sample :
  getJsonProp (lit "name") json_sample =
    Ok (slice 10 4 json_sample, json_sample) /\
  to_string (slice 10 4 json_sample) = lit "John" /\
  getJsonProp (lit "age") json_sample =
    Ok (slice 24 2 json_sample, json_sample) /\
  to_string (slice 24 2 json_sample) = lit "30" /\
  getJsonProp (lit "array") json_sample =
    Ok (slice 37 7 json_sample, json_sample) /\
  to_string (slice 37 7 json_sample) = lit "[1,2,3]" /\
  getJsonProp (lit "obj") json_sample =
    Ok (slice 53 19 json_sample, json_sample) /\
  to_string (slice 53 19 json_sample) = unq "{'nested': 'value'}".
Proof.
  repeat split; vm_compute; reflexivity.
Qed.

(** ** Balanced extraction *)

Section Balanced.

Variables start end_ : ascii.


Lemma depth_of_cons (ch : ascii) (s : text) :
  depth_of start end_ (ch :: s) =
  (depth_step start end_ ch + depth_of start end_ s)%Z.
Proof.
  unfold depth_of, depth_step. simpl.
  destruct (Ascii.eqb_spec ch start) as [->|Hs].
  - destruct (ascii_dec start start) as [_|N]; [|contradiction].
    destruct (Ascii.eqb_spec start end_) as [E|E]; [lia|].
    destruct (ascii_dec start end_) as [E'|_]; [contradiction|]. lia.
  - destruct (ascii_dec ch start) as [E'|_]; [contradiction|].
    destruct (Ascii.eqb_spec ch end_) as [->|He].
    + destruct (Ascii.eqb_spec start end_) as [E|E]; [congruence|].
      destruct (ascii_dec end_ end_) as [_|N]; [|contradiction]. lia.
    + destruct (ascii_dec ch end_) as [E'|_]; [contradiction|].
      destruct (Ascii.eqb start end_); lia.
Qed.

Lemma depth_of_firstn_S (ch : ascii) (s : text) (n : nat) :
  depth_of start end_ (firstn (S n) (ch :: s)) =
  (depth_step start end_ ch + depth_of start end_ (firstn n s))%Z.
Proof. simpl. apply depth_of_cons. Qed.


(** When the depth never returns to zero the loop reads the whole text
    and ends at a non-zero depth. *)
Lemma extract_char_loop_never (rest : text) :
  forall (i : nat) (d : Z),
    (1 <= d)%Z ->
    (forall n, 1 <= n <= length rest ->
       (d + depth_of start end_ (firstn n rest) <> 0)%Z) ->
    exists d', extract_char_loop start end_ rest i d = (i + length rest, d')
               /\ d' <> 0%Z.
Proof.
  induction rest as [|ch rest IH]; intros i d Hd Hn.
  - exists d. simpl. split; [f_equal; lia | lia].
  - assert (Hn' : forall n, 1 <= n <= length rest ->
              (d + depth_step start end_ ch
                 + depth_of start end_ (firstn n rest) <> 0)%Z).
    { intros n Hlen. specialize (Hn (S n) ltac:(simpl; lia)).
      rewrite depth_of_firstn_S in Hn. lia. }
    assert (Hfirst : (d + depth_step start end_ ch <> 0)%Z).
    { specialize (Hn 1 ltac:(simpl; lia)).
      rewrite depth_of_firstn_S in Hn. simpl in Hn.
      unfold depth_of in Hn. simpl in Hn.
      destruct (Ascii.eqb start end_); lia. }
    simpl extract_char_loop. unfold depth_step in *.
    destruct (Ascii.eqb ch start).
    + destruct (IH (S i) (d + 1)%Z) as (d' & E & N); [lia | exact Hn' |].
      exists d'. rewrite E. split; [f_equal; simpl; lia | assumption].
    + destruct (Ascii.eqb ch end_).
      * destruct (Z.eqb_spec (d - 1) 0) as [Z0|Z0]; [lia|].
        destruct (IH (S i) (d - 1)%Z) as (d' & E & N); [lia | |].
        -- intros n Hlen. specialize (Hn' n Hlen). lia.
        -- exists d'. rewrite E. split; [f_equal; simpl; lia | assumption].
      * destruct (IH (S i) d) as (d' & E & N); [lia | |].
        -- intros n Hlen. specialize (Hn' n Hlen). lia.
        -- exists d'. rewrite E. split; [f_equal; simpl; lia | assumption].
Qed.

(** As long as no more than [INT_MAX] levels can be open, the [int]
    counter of the loop stays in range and the loop is the unlimited one. *)
Lemma extract_char_loop_int_in_range (rest : text) :
  forall (i : nat) (d : Z),
    (1 <= d)%Z ->
    (d + Z.of_nat (count_occ ascii_dec rest start) <= INT_MAX)%Z ->
    extract_char_loop_int start end_ rest i d =
    Ok (extract_char_loop start end_ rest i d).
Proof.
  induction rest as [|ch rest IH]; intros i d Hd Hmax; [reflexivity|].
  cbn [count_occ] in Hmax.
  cbn [extract_char_loop_int extract_char_loop].
  destruct (Ascii.eqb_spec ch start) as [E|E];
    destruct (ascii_dec ch start) as [E'|E']; try contradiction.
  - rewrite Nat2Z.inj_succ in Hmax.
    destruct (Z.ltb_spec d INT_MAX) as [L|L]; [|lia]. apply IH; lia.
  - destruct (Ascii.eqb ch end_); [|apply IH; lia].
    destruct (Z.eqb_spec (d - 1) 0); [reflexivity | apply IH; lia].
Qed.



End Balanced.

Lemma first_at_char_split (ch : ascii) (s : text) (si : nat) :
  first_at [ch] s si ->
  exists pre post, s = pre ++ ch :: post /\ length pre = si /\
    skipn si s = ch :: post /\ skipn (si + 1) s = post.
Proof.
  intros [(pre & post & -> & <-) _]. exists pre, post. simpl.
  repeat split.
  - now rewrite skipn_app, skipn_all, Nat.sub_diag.
  - rewrite skipn_app, skipn_all2 by lia.
    replace (length pre + 1 - length pre) with 1 by lia. reflexivity.
Qed.


(** The closed form of the bracket extraction on a view whose [start]
    characters the counter can count. *)
Lemma extract_char_run_in_range (start end_ : ascii) (mode : MoveMode)
    (c : PatternSeeker) :
  counts_in_int start c ->
  extract_char start end_ mode c =
  match find_text [start] (to_string c) with
  | None => Ok (PatternSeeker_default, c)
  | Some startIndex =>
      let '(i, depth) :=
        extract_char_loop start end_
          (skipn (startIndex + 1) (to_string c)) (startIndex + 1) 1%Z in
      if (depth =? 0)%Z
      then Ok (slice startIndex (i - startIndex) c, moved mode startIndex i c)
      else Ok (PatternSeeker_default, c)
  end.
Proof.
  intros Hmax. rewrite extract_char_run.
  destruct (find_text [start] (to_string c)) as [si|] eqn:F; [|reflexivity].
  apply find_text_Some in F.
  destruct (first_at_char_split F) as (pre & post & Hs & Hpre & Hsk & Hsk1).
  unfold counts_in_int in Hmax. rewrite Hs, count_occ_app in Hmax.
  cbn [count_occ] in Hmax.
  destruct (ascii_dec start start) as [_|N]; [|contradiction].
  rewrite Hsk1, extract_char_loop_int_in_range by lia.
  now destruct (extract_char_loop start end_ post (si + 1) 1%Z).
Qed.






(** ** Extraction between two literals *)

Lemma skipn_app_app (a b x : text) :
  skipn (length a + length b) (a ++ b ++ x) = x.
Proof.
  rewrite app_assoc, <- length_app.
  now rewrite skipn_app, skipn_all, Nat.sub_diag.
Qed.

Lemma absent_skipn (pat s : text) (n : nat) :
  absent pat s -> absent pat (skipn n s).
Proof.
  intros H i (pre & post & E & L).
  apply (H (length (firstn n s) + i)).
  exists (firstn n s ++ pre), post. split.
  - rewrite <- (firstn_skipn n s) at 1. rewrite E. now rewrite <- app_assoc.
  - rewrite length_app. lia.
Qed.

(** C6: [extract(from, to, mode)] returns the text strictly between the
    first occurrence of [from] in the view and the first occurrence of [to]
    in what follows that occurrence of [from]; when [from] is absent, or
    [to] is absent (from the view, or from what follows [from]), it returns
    the empty sentinel and leaves the view unchanged.  On
    [Hello, <name>World</name>!] the text between [<name>] and [</name>] is
    [World]. *)
Theorem extract_from_to_between (c : PatternSeeker) (from to_ : text)
    (mode : MoveMode) :
  (forall pre mid post,
     to_string c = pre ++ from ++ mid ++ to_ ++ post ->
     first_at from (to_string c) (length pre) ->
     first_at to_ (mid ++ to_ ++ post) (length mid) ->
     extract_from_to from to_ mode c =
       Ok (slice (length pre + length from) (length mid) c,
           moved mode (length pre)
             (length pre + length from + length mid + length to_) c) /\
     to_string (slice (length pre + length from) (length mid) c) = mid) /\
  (absent from (to_string c) ->
     extract_from_to from to_ mode c = Ok (PatternSeeker_default, c)) /\
  (absent to_ (to_string c) ->
     extract_from_to from to_ mode c = Ok (PatternSeeker_default, c)) /\
  (forall pre rest,
     to_string c = pre ++ from ++ rest ->
     first_at from (to_string c) (length pre) ->
     absent to_ rest ->
     extract_from_to from to_ mode c = Ok (PatternSeeker_default, c)) /\
  (extract_from_to (lit "<name>") (lit "</name>") none hello_sample =
     Ok (slice 13 5 hello_sample, hello_sample) /\
   to_string (slice 13 5 hello_sample) = lit "World").
Proof.
  split; [|split; [|split; [|split]]].
  - intros pre mid post Hs Hfrom Hto.
    apply find_text_Some in Hfrom. apply find_text_Some in Hto.
    rewrite extract_from_to_run, Hfrom.
    rewrite to_string_slice, Hs, skipn_app_app, Hto.
    split; [reflexivity|].
    now rewrite firstn_app, firstn_all, Nat.sub_diag, firstn_O, app_nil_r.
  - intros H. apply find_text_None in H.
    now rewrite extract_from_to_run, H.
  - intros H. rewrite extract_from_to_run.
    destruct (find_text from (to_string c)) as [found|]; [|reflexivity].
    apply (absent_skipn (found + length from)) in H.
    apply find_text_None in H. now rewrite H.
  - intros pre rest Hs Hfrom Hto.
    apply find_text_Some in Hfrom. apply find_text_None in Hto.
    rewrite extract_from_to_run, Hfrom.
    replace (skipn (length pre + length from) (to_string c)) with rest.
    + now rewrite Hto.
    + now rewrite Hs, skipn_app_app.
  - split; vm_compute; reflexivity.
Qed.

(** ** Methods that work on a copy *)

Section Safe.











End Safe.


(** The bracket extraction returns as long as its counter can count the
    [start] characters; the methods around it in [getJsonProp] only shorten
    the view, so they keep the count in range. *)
Section SafeInRange.

Variable P : PatternSeeker -> Prop.
Hypothesis P_advanced : forall n c, P c -> P (advanced n c).












End SafeInRange.









(** ** XML attributes *)

Lemma take_while_stops (p : ascii -> bool) (a : text) (ch : ascii) (b : text) :
  forallb p a = true -> p ch = false -> take_while p (a ++ ch :: b) = a.
Proof.
  intros Ha Hch. induction a as [|x a IH]; simpl.
  - now rewrite Hch.
  - simpl in Ha. apply andb_true_iff in Ha as [Hx Ha].
    now rewrite Hx, IH.
Qed.

Lemma find_text_char_after (ch : ascii) (v post : text) :
  ~ In ch v -> find_text [ch] (v ++ ch :: post) = Some (length v).
Proof.
  intros H. induction v as [|x v IH].
  - simpl. now rewrite Ascii.eqb_refl.
  - rewrite <- app_comm_cons, find_text_cons. simpl starts_with_text.
    destruct (Ascii.eqb_spec x ch) as [->|N].
    + exfalso. apply H. now left.
    + simpl. rewrite IH; [reflexivity|]. intros Hin. apply H. now right.
Qed.

(** C10, as the code has it: [getXmlAttr] does not require an equals sign.
    When the first
    occurrence of the attribute name in the view is followed by white space
    (possibly none) and then by a double-quoted value, with no ['=']
    between, [getXmlAttr(name)] returns that value, as a cursor with the
    receiver's origin, and leaves the receiver unchanged. *)
Theorem getXmlAttr_without_equals (c : PatternSeeker)
    (name pre ws value post : text) :
  to_string c = pre ++ name ++ ws ++ dquote :: value ++ dquote :: post ->
  first_at name (to_string c) (length pre) ->
  forallb isspace ws = true ->
  ~ In dquote value ->
  exists r, getXmlAttr name c = Ok (r, c) /\
    to_string r = value /\
    m_originalPointer r = m_originalPointer c /\
    r = slice (length pre + length name + length ws + 1) (length value) c.
Proof.
  intros Hs Hname Hws Hval.
  apply find_text_Some in Hname.
  unfold getXmlAttr, on_copy, bind.
  rewrite to_run, Hname. cbn [negb moved].
  set (c1 := advanced (length pre + length name) c).
  assert (S1 : to_string c1 = ws ++ dquote :: value ++ dquote :: post).
  { unfold c1. now rewrite to_string_advanced, Hs, skipn_app_app. }
  rewrite skipWhiteSpaces_run, S1, take_while_stops
    by (assumption || reflexivity).
  set (c2 := advanced (length ws) c1).
  assert (S2 : to_string c2 = dquote :: value ++ dquote :: post).
  { unfold c2. rewrite to_string_advanced, S1.
    now rewrite skipn_app, skipn_all, Nat.sub_diag. }
  rewrite expect_run.
  assert (E : startsWith (lit "=") c2 = false).
  { unfold startsWith, sv.starts_with. fold (to_string c2). now rewrite S2. }
  rewrite E, skipWhiteSpaces_run, S2. simpl take_while. simpl length.
  rewrite advanced_0, extract_from_to_run, S2.
  unfold DOUBLE_QUOTE. rewrite find_text_cons. simpl starts_with_text.
  cbn [length Nat.add skipn].
  rewrite find_text_char_after by assumption.
  assert (R : slice 1 (length value) c2 =
              slice (length pre + length name + length ws + 1)
                    (length value) c).
  { unfold c2, c1. rewrite advanced_advanced, slice_advanced.
    reflexivity. }
  rewrite R. eexists. split; [reflexivity|]. repeat split.
  rewrite to_string_slice, Hs.
  replace (length pre + length name + length ws + 1)
    with (length pre + length (name ++ ws ++ [dquote]))
    by (rewrite !length_app; simpl; lia).
  replace (pre ++ name ++ ws ++ dquote :: value ++ dquote :: post)
    with (pre ++ (name ++ ws ++ [dquote]) ++ value ++ dquote :: post)
    by (now rewrite <- !app_assoc).
  rewrite skipn_app_app.
  now rewrite firstn_app, firstn_all, Nat.sub_diag, firstn_O, app_nil_r.
Qed.

Lemma getXmlAttr_without_equals_witness :
  exists r, getXmlAttr (lit "id") attr_sample = Ok (r, attr_sample) /\
    to_string r = lit "123" /\
    m_originalPointer r = m_originalPointer attr_sample /\
    r = slice (5 + 2 + 1 + 1) 3 attr_sample.
Proof.
  apply (@getXmlAttr_without_equals attr_sample
           (lit "id") (lit "<tag ") (lit " ") (lit "123") (lit ">")).
  - reflexivity.
  - apply find_text_Some. reflexivity.
  - reflexivity.
  - simpl. intros [H|[H|[H|H]]]; try discriminate H. exact H.
Defined.

(** C10, as stated, fails on [<a id2 "x" id "7">]: the view holds the name
    [id] followed by a space and the quoted value [7], and no equals sign,
    yet [getXmlAttr("id")] returns [x]: it reads on from the first
    occurrence of the name, which lies inside [id2]. *)
Lemma getXmlAttr_takes_first_occurrence :
  to_string shadowed_attr_sample =
    unq "<a id2 'x' " ++ lit "id" ++ lit " " ++
    dquote :: lit "7" ++ dquote :: lit ">" /\
  existsb (Ascii.eqb "="%char) (to_string shadowed_attr_sample) = false /\
  getXmlAttr (lit "id") shadowed_attr_sample =
    Ok (slice 8 1 shadowed_attr_sample, shadowed_attr_sample) /\
  to_string (slice 8 1 shadowed_attr_sample) = lit "x".
Proof. repeat split; vm_compute; reflexivity. Qed.

(** ** Unsigned numbers *)

Section Numeric.

(** *** The conversion against the grammar *)

Lemma strto_spaces_spec (s : text) (n : nat) :
  strto_spaces s n = (drop_while isspace s, n + length (take_while isspace s)).
Proof.
  revert n. induction s as [|ch s IH]; intros n; simpl.
  - f_equal. lia.
  - destruct (isspace ch).
    + rewrite IH. simpl. f_equal. lia.
    + simpl. f_equal. lia.
Qed.

Lemma strto_sign_spec (s : text) :
  strto_sign s =
  (is_minus (sign_chars s), skipn (length (sign_chars s)) s,
   length (sign_chars s)).
Proof.
  destruct s as [|ch s]; [reflexivity|]. simpl.
  destruct (Ascii.eqb ch "-") eqn:Em; simpl; [now rewrite Em|].
  destruct (Ascii.eqb ch "+") eqn:Ep; simpl; [now rewrite Em | reflexivity].
Qed.

Lemma strto_digits_spec (s : text) (acc : Z) (n : nat) :
  strto_digits s acc n =
  ((acc * 10 ^ Z.of_nat (length (take_while isdigit s))
    + decimal_value (take_while isdigit s))%Z,
   n + length (take_while isdigit s)).
Proof.
  revert acc n. induction s as [|ch s IH]; intros acc n;
    cbn [strto_digits take_while].
  - cbn [length decimal_value]. f_equal; [simpl; ring | lia].
  - destruct (isdigit ch); cbn [length decimal_value].
    + rewrite IH. f_equal; [|lia].
      set (k := length (take_while isdigit s)).
      rewrite Nat2Z.inj_succ, Z.pow_succ_r by lia. ring.
    + f_equal; [simpl; ring | lia].
Qed.

Lemma strtoull_spec (s : text) :
  strtoull s =
  match digits_of s with
  | [] => StrTo 0 0 false
  | _ :: _ =>
      if (ULLONG_MAX <? decimal_value (digits_of s))%Z
      then StrTo ULLONG_MAX (numeric_length s) true
      else StrTo (if is_minus (sign_of s)
                  then (- decimal_value (digits_of s)) mod (ULLONG_MAX + 1)
                  else decimal_value (digits_of s))%Z
                 (numeric_length s) false
  end.
Proof.
  unfold strtoull, numeric_length.
  rewrite strto_spaces_spec, strto_sign_spec, strto_digits_spec.
  fold (sign_of s). fold (digits_of s). fold (spaces_of s).
  destruct (digits_of s) as [|d ds] eqn:E; [reflexivity|].
  cbn [length Nat.add Nat.eqb].
  rewrite Z.mul_0_l, Z.add_0_l. reflexivity.
Qed.

Lemma takeUInt64_run (c : PatternSeeker) :
  takeUInt64 c =
  let r := strtoull (sv.c_str (m_str c)) in
  if strto_consumed r <=? size c
  then Ok (if strto_erange r || (strto_consumed r =? 0) then None
           else Some (strto_value r),
           advanced (strto_consumed r) c)
  else Fault undefined_behaviour.
Proof.
  unfold takeUInt64, bind, reading. cbv zeta.
  destruct (Nat.leb_spec (strto_consumed (strtoull (sv.c_str (m_str c))))
              (size c)) as [H|H].
  - rewrite remove_prefix_ok by assumption.
    now destruct (strto_erange _ || _).
  - now rewrite remove_prefix_overrun by assumption.
Qed.

End Numeric.

Section NumericPrefix.

Lemma take_drop_while (p : ascii -> bool) (s : text) :
  take_while p s ++ drop_while p s = s.
Proof.
  induction s as [|ch s IH]; simpl; [reflexivity|].
  destruct (p ch); simpl; [now rewrite IH | reflexivity].
Qed.

Lemma take_while_app_all (p : ascii -> bool) (a b : text) :
  drop_while p a = [] ->
  take_while p (a ++ b) = a ++ take_while p b /\
  drop_while p (a ++ b) = drop_while p b.
Proof.
  induction a as [|ch a IH]; simpl; intros H; [now split|].
  destruct (p ch); [|discriminate].
  destruct (IH H) as [-> ->]. now split.
Qed.

Lemma take_while_app_stop (p : ascii -> bool) (a b : text) :
  drop_while p a <> [] ->
  take_while p (a ++ b) = take_while p a /\
  drop_while p (a ++ b) = drop_while p a ++ b.
Proof.
  induction a as [|ch a IH]; simpl; intros H; [contradiction|].
  destruct (p ch); [|now split].
  destruct (IH H) as [-> ->]. now split.
Qed.

Lemma numeric_length_digits (s : text) :
  digits_of s <> [] ->
  numeric_length s =
  length (spaces_of s) + length (sign_of s) + length (digits_of s).
Proof.
  unfold numeric_length. destruct (digits_of s); [contradiction | reflexivity].
Qed.

Lemma numeric_length_no_digits (s : text) :
  digits_of s = [] -> numeric_length s = 0.
Proof. unfold numeric_length. now intros ->. Qed.

Lemma sign_chars_length (s : text) : length (sign_chars s) <= 1.
Proof.
  destruct s as [|ch s]; simpl; [lia|].
  destruct (_ || _); simpl; lia.
Qed.

(** What the grammar reads of [a ++ b] is what it reads of [a], when it
    stops within [a]. *)
Lemma numeric_prefix_stable (a b : text) :
  numeric_length (a ++ b) <= length a ->
  digits_of (a ++ b) = digits_of a /\
  numeric_length (a ++ b) = numeric_length a /\
  (digits_of a <> [] -> sign_of (a ++ b) = sign_of a).
Proof.
  intros H.
  pose proof (take_drop_while isspace a) as La.
  apply (f_equal (@length ascii)) in La. rewrite length_app in La.
  destruct (drop_while isspace a) as [|ch a1] eqn:D.
  - destruct (take_while_app_all isspace a b D) as [T Dr].
    assert (Da : digits_of a = [])
      by (unfold digits_of, sign_of; now rewrite D).
    assert (Db : digits_of (a ++ b) = digits_of b)
      by (unfold digits_of, sign_of; now rewrite Dr).
    destruct (digits_of b) as [|d ds] eqn:E.
    + rewrite Db, Da. split; [reflexivity|]. split; [|contradiction].
      now rewrite !numeric_length_no_digits by (assumption || congruence).
    + exfalso. rewrite numeric_length_digits in H by congruence.
      unfold spaces_of in H. rewrite T, Db, length_app in H. simpl in H. lia.
  - assert (N : drop_while isspace a <> []) by (rewrite D; discriminate).
    destruct (take_while_app_stop isspace a b N) as [T Dr].
    rewrite D in Dr.
    assert (Sg : sign_of (a ++ b) = sign_of a)
      by (unfold sign_of; now rewrite Dr, D).
    pose proof (sign_chars_length (ch :: a1)) as Ls.
    assert (Sk : skipn (length (sign_of a)) ((ch :: a1) ++ b) =
                 skipn (length (sign_of a)) (ch :: a1) ++ b).
    { unfold sign_of. rewrite D, skipn_app.
      replace (length (sign_chars (ch :: a1)) - length (ch :: a1)) with 0
        by (simpl in *; lia).
      reflexivity. }
    assert (La2 : length (skipn (length (sign_of a)) (ch :: a1)) =
                  S (length a1) - length (sign_of a))
      by (now rewrite length_skipn).
    assert (Ls' : length (sign_of a) <= 1)
      by (unfold sign_of; now rewrite D).
    assert (Da : digits_of a =
                 take_while isdigit (skipn (length (sign_of a)) (ch :: a1)))
      by (unfold digits_of; now rewrite D).
    assert (Db : digits_of (a ++ b) =
                 take_while isdigit
                   (skipn (length (sign_of a)) (ch :: a1) ++ b))
      by (unfold digits_of; now rewrite Sg, Dr, Sk).
    set (a2 := skipn (length (sign_of a)) (ch :: a1)) in *.
    assert (Eq : digits_of (a ++ b) = digits_of a).
    { destruct (drop_while isdigit a2) as [|x r] eqn:D2.
      - destruct (take_while_app_all isdigit a2 b D2) as [T2 _].
        pose proof (take_drop_while isdigit a2) as L2.
        rewrite D2, app_nil_r in L2.
        destruct (take_while isdigit b) as [|d ds] eqn:E.
        + now rewrite Db, Da, T2, L2, app_nil_r.
        + exfalso.
          assert (Nn : digits_of (a ++ b) <> []).
          { rewrite Db, T2. destruct a2; discriminate. }
          rewrite numeric_length_digits in H by assumption.
          unfold spaces_of in H.
          rewrite T, Sg, Db, T2, length_app in H.
          simpl in H, La. lia.
      - assert (N2 : drop_while isdigit a2 <> [])
          by (rewrite D2; discriminate).
        destruct (take_while_app_stop isdigit a2 b N2) as [T2 _].
        now rewrite Db, Da. }
    split; [exact Eq|]. split; [|intros _; exact Sg].
    unfold numeric_length, spaces_of. now rewrite Eq, T, Sg.
Qed.

End NumericPrefix.

(** C3, as the code has it: when the numeric conversion stops within the
    view, [takeUInt64] returns a value exactly when the view holds, after
    optional leading white space and an optional sign, at least one decimal
    digit, and the longest run of digits there denotes a number within the
    unsigned 64-bit range; the value is that number, negated modulo 2^64
    under a minus sign; the view advances past the white space, the sign
    and the digits, and is unchanged when there is no digit. *)
Theorem takeUInt64_spec (c : PatternSeeker) :
  numeric_length (sv.c_str (m_str c)) <= size c ->
  exists r c', takeUInt64 c = Ok (r, c') /\
    (r <> None <->
       digits_of (to_string c) <> [] /\
       (decimal_value (digits_of (to_string c)) <= ULLONG_MAX)%Z) /\
    (forall v, r = Some v ->
       v = if is_minus (sign_of (to_string c))
           then ((- decimal_value (digits_of (to_string c)))
                   mod (ULLONG_MAX + 1))%Z
           else decimal_value (digits_of (to_string c))) /\
    c' = advanced (numeric_length (to_string c)) c /\
    (digits_of (to_string c) = [] -> c' = c).
Proof.
  intros H. unfold sv.c_str in H. fold (to_string c) in H.
  destruct (numeric_prefix_stable (to_string c) (sv_after (m_str c)) H)
    as (Ed & En & Es).
  rewrite En in H.
  rewrite takeUInt64_run, strtoull_spec. cbv zeta.
  unfold sv.c_str. fold (to_string c). rewrite Ed, En.
  destruct (digits_of (to_string c)) as [|d ds] eqn:D.
  - simpl. rewrite numeric_length_no_digits by assumption.
    eexists _, _. split; [reflexivity|].
    repeat split; try congruence.
    + intros [N _]. congruence.
    + intros _. apply advanced_0.
  - assert (Nd : digits_of (to_string c) <> []) by (rewrite D; discriminate).
    rewrite (Es ltac:(discriminate)).
    pose proof (@numeric_length_digits (to_string c) Nd) as L.
    rewrite D in L. simpl in L.
    destruct (Z.ltb_spec ULLONG_MAX (decimal_value (d :: ds))) as [O|O].
    + cbn [strto_consumed strto_erange strto_value orb].
      apply Nat.leb_le in H. rewrite H.
      eexists _, _. split; [reflexivity|].
      repeat split; try congruence.
      intros [_ N] _. lia.
    + cbn [strto_consumed strto_erange strto_value orb].
      assert (Z0 : (numeric_length (to_string c) =? 0) = false)
        by (apply Nat.eqb_neq; lia).
      apply Nat.leb_le in H. rewrite H, Z0.
      eexists _, _. split; [reflexivity|].
      repeat split; try congruence; try assumption.
Qed.

Lemma takeUInt64_spec_witness :
  exists r c', takeUInt64 number_sample = Ok (r, c') /\
    (r <> None <->
       digits_of (to_string number_sample) <> [] /\
       (decimal_value (digits_of (to_string number_sample)) <= ULLONG_MAX)%Z) /\
    (forall v, r = Some v ->
       v = if is_minus (sign_of (to_string number_sample))
           then ((- decimal_value (digits_of (to_string number_sample)))
                   mod (ULLONG_MAX + 1))%Z
           else decimal_value (digits_of (to_string number_sample))) /\
    c' = advanced (numeric_length (to_string number_sample)) number_sample /\
    (digits_of (to_string number_sample) = [] -> c' = number_sample).
Proof.
  apply (takeUInt64_spec number_sample). vm_compute. lia.
Defined.

(** On the sample the value is -42 modulo 2^64 and the view ends up empty. *)
Example takeUInt64_number_sample :
  takeUInt64 number_sample =
    Ok (Some 18446744073709551574%Z, advanced 3 number_sample) /\
  to_string number_sample = lit "-42" /\
  to_string (advanced 3 number_sample) = [].
Proof. repeat split; vm_compute; reflexivity. Qed.

(** C3, as stated, fails on the view [ 42] (a space, then 42): the view
    begins with no decimal digit, yet [takeUInt64] returns 42 and the view
    advances by three characters. *)
Lemma takeUInt64_accepts_leading_space :
  take_while isdigit (to_string spaced_number_sample) = [] /\
  takeUInt64 spaced_number_sample =
    Ok (Some 42%Z, advanced 3 spaced_number_sample) /\
  to_string spaced_number_sample = lit " 42" /\
  to_string (advanced 3 spaced_number_sample) = [].
Proof. repeat split; vm_compute; reflexivity. Qed.

(** ** Failures and the empty sentinel *)

Lemma find_first_of_text_None (set s : text) :
  (forall ch, In ch s -> ~ In ch set) -> find_first_of_text set s = None.
Proof.
  induction s as [|x s IH]; intros H; simpl; [reflexivity|].
  destruct (existsb (Ascii.eqb x) set) eqn:E.
  - apply existsb_exists in E as (y & Hy & Exy).
    apply Ascii.eqb_eq in Exy. subst y.
    exfalso. apply (H x); [now left | assumption].
  - rewrite IH; [reflexivity|]. intros ch Hin. apply H. now right.
Qed.

(** On every receiver, a search that finds nothing reports it through its
    result (false, no value, or the empty sentinel) and leaves the receiver
    unchanged; the bracket extraction does so when its counter can count
    the [start] characters of the view. *)
Lemma failures_are_signalled (c : PatternSeeker) :
  (forall s, startsWith s c = false -> expect s c = Ok (false, c)) /\
  (forall s mode, absent s (to_string c) -> to s mode c = Ok (false, c)) /\
  (forall s mode, absent s (to_string c) ->
     extract_to s mode c = Ok (PatternSeeker_default, c)) /\
  (forall from to_ mode,
     absent from (to_string c) \/ absent to_ (to_string c) ->
     extract_from_to from to_ mode c = Ok (PatternSeeker_default, c)) /\
  (forall set mode, (forall ch, In ch (to_string c) -> ~ In ch set) ->
     extractUntilOneOf set mode c = Ok (PatternSeeker_default, c)) /\
  (forall start end_ mode si,
     absent [start] (to_string c) \/
     (counts_in_int start c /\
      first_at [start] (to_string c) si /\
      never_closes start end_ (skipn si (to_string c))) ->
     extract_char start end_ mode c = Ok (PatternSeeker_default, c)) /\
  (digits_of (sv.c_str (m_str c)) = [] -> takeUInt64 c = Ok (None, c)).
Proof.
  repeat split.
  - intros s H. now rewrite expect_run, H.
  - intros s mode H. apply find_text_None in H. now rewrite to_run, H.
  - intros s mode H. apply find_text_None in H.
    now rewrite extract_to_run, H.
  - intros from to_ mode [H|H]; rewrite extract_from_to_run.
    + apply find_text_None in H. now rewrite H.
    + destruct (find_text from (to_string c)) as [found|]; [|reflexivity].
      apply (absent_skipn (found + length from)) in H.
      apply find_text_None in H. now rewrite H.
  - intros set mode H. apply find_first_of_text_None in H.
    now rewrite extractUntilOneOf_run, H.
  - intros start end_ mode si [H|(Hmax & H1 & H2)].
    + apply find_text_None in H. now rewrite extract_char_run, H.
    + rewrite (extract_char_run_in_range end_ mode Hmax).
      pose proof H1 as F. apply find_text_Some in F.
      destruct (first_at_char_split H1) as (pre & post & _ & _ & Hsk & Hsk1).
      rewrite Hsk in H2.
      destruct (@extract_char_loop_never start end_ post (si + 1) 1%Z)
        as (d' & E & N); [lia | |].
      * intros n Hn. specialize (H2 (S n) ltac:(simpl; lia)).
        rewrite depth_of_firstn_S in H2. unfold depth_step in H2.
        now rewrite Ascii.eqb_refl in H2.
      * rewrite F, Hsk1, E.
        destruct (Z.eqb_spec d' 0); [contradiction | reflexivity].
  - intros H. rewrite takeUInt64_run, strtoull_spec, H. simpl.
    now rewrite advanced_0.
Qed.

(** X19: the methods on the empty sentinel, in every mode but the one that
    removes a counted prefix: each returns, reports empty, not found or no
    value, and leaves the sentinel as it is.  The extractions do so with
    every literal, the three tests with every literal that is not empty. *)
Lemma sentinel_reads (s from to_ : text) (mode : MoveMode)
    (start end_ : ascii) (n : nat) :
  size PatternSeeker_default = 0 /\
  isEmpty PatternSeeker_default = true /\
  to_string PatternSeeker_default = [] /\
  getOffset PatternSeeker_default = Ok 0%Z /\
  (s <> [] ->
   startsWith s PatternSeeker_default = false /\
   expect s PatternSeeker_default = Ok (false, PatternSeeker_default) /\
   to s mode PatternSeeker_default = Ok (false, PatternSeeker_default)) /\
  extract_to s mode PatternSeeker_default =
    Ok (PatternSeeker_default, PatternSeeker_default) /\
  extract_from_to from to_ mode PatternSeeker_default =
    Ok (PatternSeeker_default, PatternSeeker_default) /\
  extractUntilOneOf s mode PatternSeeker_default =
    Ok (PatternSeeker_default, PatternSeeker_default) /\
  extract_char start end_ mode PatternSeeker_default =
    Ok (PatternSeeker_default, PatternSeeker_default) /\
  (mode <> move_after ->
   extract_size n mode PatternSeeker_default =
     Ok (PatternSeeker_default, PatternSeeker_default)) /\
  takeUInt64 PatternSeeker_default = Ok (None, PatternSeeker_default) /\
  takeInt64 PatternSeeker_default = Ok (None, PatternSeeker_default) /\
  skipWhiteSpaces PatternSeeker_default = Ok (tt, PatternSeeker_default) /\
  getJsonProp s PatternSeeker_default =
    Ok (PatternSeeker_default, PatternSeeker_default) /\
  getXmlTag s mode PatternSeeker_default =
    Ok (PatternSeeker_default, PatternSeeker_default) /\
  getXmlTagBody s mode PatternSeeker_default =
    Ok (PatternSeeker_default, PatternSeeker_default) /\
  getXmlAttr s PatternSeeker_default =
    Ok (PatternSeeker_default, PatternSeeker_default).
Proof.
  repeat split; try reflexivity.
  - destruct s; [contradiction | reflexivity].
  - destruct s; [contradiction | reflexivity].
  - destruct s; [contradiction | reflexivity].
  - destruct s, mode; reflexivity.
  - destruct from, to_, mode; reflexivity.
  - intros H. rewrite extract_size_run.
    destruct mode; try contradiction; now rewrite Nat.min_0_r.
  - destruct s; reflexivity.
Qed.

(** C4: two calls that fault.  On the empty sentinel,
    [extract(1, move_after)] calls [remove_prefix(1)] on a view of size 0.
    On the derived view of one space that [extract("a", "1")] returns on
    [a 12], [takeUInt64] lets the conversion read on past the end of the
    view: it converts [12], and [remove_prefix(3)] is called on a view of
    size 1.  Both are undefined behaviour. *)
Theorem sentinel_and_blank_view_fault :
  isEmpty PatternSeeker_default = true /\
  extract_size 1 move_after PatternSeeker_default =
    Fault undefined_behaviour /\
  extract_from_to (lit "a") (lit "1") none (cursor_on 1 (lit "a 12")) =
    Ok (blank_sample, cursor_on 1 (lit "a 12")) /\
  to_string blank_sample = lit " " /\
  digits_of (to_string blank_sample) = [] /\
  strtoull (sv.c_str (m_str blank_sample)) = StrTo 12 3 false /\
  takeUInt64 blank_sample = Fault undefined_behaviour.
Proof. repeat split; vm_compute; reflexivity. Qed.

(** ** Which methods keep the origin *)

Lemma getXmlTag_run (prop : text) (mode : MoveMode) (c : PatternSeeker) :
  let startTag := lit "<" ++ prop in
  let endTag := lit "</" ++ prop ++ lit ">" in
  getXmlTag prop mode c =
  match find_text startTag (to_string c) with
  | None => Ok (PatternSeeker_default, c)
  | Some startPos =>
      match find_text endTag
              (skipn (startPos + length startTag) (to_string c)) with
      | None => Ok (PatternSeeker_default, c)
      | Some k =>
          Ok (slice startPos (length startTag + k + length endTag) c,
              moved mode startPos
                (startPos + length startTag + k + length endTag) c)
      end
  end.
Proof.
  intros startTag endTag.
  unfold getXmlTag, bind, reading, ret. rewrite find_0.
  fold (to_string c). fold startTag.
  destruct (find_text startTag (to_string c)) as [sp|] eqn:F; [|reflexivity].
  apply find_text_bound in F.
  rewrite find_from by (unfold sv.size; fold (to_string c); lia).
  fold (to_string c). fold endTag.
  destruct (find_text endTag (skipn (sp + length startTag) (to_string c)))
    as [k|] eqn:T; [|reflexivity].
  apply find_text_bound in T. rewrite length_skipn in T.
  cbn [option_map]. unfold lift. rewrite substr_ok
    by (unfold sv.size; fold (to_string c); lia).
  cbn [res_bind]. rewrite move_ok by (rewrite size_length; lia).
  unfold slice, PatternSeeker_derived. cbn [or_EMPTY_STR].
  rewrite origin_moved.
  replace (sp + length startTag + k + length endTag - sp)
    with (length startTag + k + length endTag) by lia.
  reflexivity.
Qed.

Section Origin.

Lemma keeps_reading {A} (f : PatternSeeker -> A) : keeps_origin (reading f).
Proof. intros c a c' [= _ <-]. reflexivity. Qed.

Lemma keeps_expect (s : text) : keeps_origin (expect s).
Proof.
  intros c a c'. rewrite expect_run.
  destruct (startsWith s c); intros [= _ <-]; reflexivity.
Qed.

Lemma keeps_to (s : text) (mode : MoveMode) : keeps_origin (to s mode).
Proof.
  intros c a c'. rewrite to_run.
  destruct (find_text s (to_string c)); intros [= _ <-];
    [apply origin_moved | reflexivity].
Qed.

Lemma keeps_skipWhiteSpaces : keeps_origin skipWhiteSpaces.
Proof.
  intros c a c'. rewrite skipWhiteSpaces_run. intros [= _ <-]. reflexivity.
Qed.

Lemma derives_default : derives (ret PatternSeeker_default).
Proof. intros c r c' [= <- <-]. split; [reflexivity | now left]. Qed.

Lemma derives_bind {A} (m : M A) (k : A -> M PatternSeeker) :
  keeps_origin m -> (forall a, derives (k a)) -> derives (bind m k).
Proof.
  intros Hm Hk c r c'. unfold bind.
  destruct (m c) as [[a c1]|f] eqn:E; [|discriminate].
  intros H. apply Hk in H. apply Hm in E. rewrite <- E. exact H.
Qed.

Lemma derives_on_copy (body : M PatternSeeker) :
  derives body -> derives (on_copy body).
Proof.
  intros H c r c'. unfold on_copy.
  destruct (body c) as [[a c1]|f] eqn:E; [|discriminate].
  intros [= <- <-]. split; [reflexivity|]. now apply H in E.
Qed.

Lemma derives_extract_from_to (from to_ : text) (mode : MoveMode) :
  derives (extract_from_to from to_ mode).
Proof.
  intros c r c'. rewrite extract_from_to_run.
  destruct (find_text from (to_string c));
    [destruct (find_text to_ _)|]; intros [= <- <-];
    (split; [try apply origin_moved; reflexivity | auto]).
Qed.

Lemma derives_extract_to (to_ : text) (mode : MoveMode) :
  derives (extract_to to_ mode).
Proof.
  intros c r c'. rewrite extract_to_run.
  destruct (find_text to_ (to_string c)); intros [= <- <-];
    (split; [try apply origin_moved; reflexivity | auto]).
Qed.

Lemma derives_extractUntilOneOf (set : text) (mode : MoveMode) :
  derives (extractUntilOneOf set mode).
Proof.
  intros c r c'. rewrite extractUntilOneOf_run.
  destruct (find_first_of_text set (to_string c)); intros [= <- <-];
    (split; [now destruct mode | auto]).
Qed.

Lemma derives_extract_char (start end_ : ascii) (mode : MoveMode) :
  derives (extract_char start end_ mode).
Proof.
  intros c r c'. rewrite extract_char_run.
  destruct (find_text [start] (to_string c));
    [destruct (extract_char_loop_int _ _ _ _ _) as [[i depth]|f];
     [destruct (depth =? 0)%Z|discriminate]|]; intros [= <- <-];
    (split; [try apply origin_moved; reflexivity | auto]).
Qed.

Lemma derives_extract_size (n : nat) (mode : MoveMode) :
  derives (extract_size n mode).
Proof.
  intros c r c'. rewrite extract_size_run.
  destruct mode; [| |destruct (n <=? size c); [|discriminate]];
    intros [= <- <-]; (split; [reflexivity | auto]).
Qed.

Lemma derives_getXmlTag (prop : text) (mode : MoveMode) :
  derives (getXmlTag prop mode).
Proof.
  intros c r c'. rewrite getXmlTag_run.
  destruct (find_text _ (to_string c));
    [destruct (find_text _ _)|]; intros [= <- <-];
    (split; [try apply origin_moved; reflexivity | auto]).
Qed.

End Origin.

Ltac derives_step :=
  first
    [ apply derives_default | apply derives_extract_from_to
    | apply derives_extract_to | apply derives_extractUntilOneOf
    | apply derives_extract_char
    | apply derives_bind;
      [first [apply keeps_to | apply keeps_expect
             | apply keeps_skipWhiteSpaces | apply keeps_reading]
      | intros ?]
    | match goal with |- derives (if ?b then _ else _) => destruct b end ].

(** X20: every extraction but [getXmlTagBody] hands the receiver's origin
    to the cursor it returns (or returns the empty sentinel), and leaves
    the receiver's own origin as it was. *)
Lemma derived_cursors_share_origin :
  (forall from to_ mode, derives (extract_from_to from to_ mode)) /\
  (forall to_ mode, derives (extract_to to_ mode)) /\
  (forall set mode, derives (extractUntilOneOf set mode)) /\
  (forall start end_ mode, derives (extract_char start end_ mode)) /\
  (forall n mode, derives (extract_size n mode)) /\
  (forall prop, derives (getJsonProp prop)) /\
  (forall prop mode, derives (getXmlTag prop mode)) /\
  (forall prop, derives (getXmlAttr prop)).
Proof.
  split; [intros; apply derives_extract_from_to|].
  split; [intros; apply derives_extract_to|].
  split; [intros; apply derives_extractUntilOneOf|].
  split; [intros; apply derives_extract_char|].
  split; [intros; apply derives_extract_size|].
  split; [intros; unfold getJsonProp; apply derives_on_copy;
          repeat derives_step|].
  split; [intros; apply derives_getXmlTag|].
  intros. unfold getXmlAttr. apply derives_on_copy. repeat derives_step.
Qed.

(** The offset of a slice is the receiver's offset plus the index the
    slice starts at. *)
Lemma ptr_diff_slice (pos count : nat) (c : PatternSeeker) (d : Z) :
  pos <= size c ->
  ptr_diff (sv.data (m_str c)) (m_originalPointer c) = Ok d ->
  ptr_diff (sv.data (m_str (slice pos count c)))
           (m_originalPointer (slice pos count c)) = Ok (d + Z.of_nat pos)%Z.
Proof.
  intros Hpos. unfold ptr_diff, slice. simpl.
  destruct (sv_block (m_str c) =? p_block (m_originalPointer c));
    [|discriminate].
  intros [= <-]. f_equal. rewrite length_app, length_firstn.
  unfold size, sv.size in Hpos. lia.
Qed.

(* ================================================================== *)
(** * Further properties of the cursor *)

(** ** Seeking *)

Lemma skipn_length_app (a b : text) : skipn (length a) (a ++ b) = b.
Proof. now rewrite skipn_app, skipn_all, Nat.sub_diag. Qed.

Lemma firstn_length_app (a b : text) : firstn (length a) (a ++ b) = a.
Proof.
  now rewrite firstn_app, firstn_all, Nat.sub_diag, firstn_O, app_nil_r.
Qed.

Lemma to_string_moved (mode : MoveMode) (a b : nat) (c : PatternSeeker) :
  to_string (moved mode a b c) =
  match mode with
  | none => to_string c
  | move_before => skipn a (to_string c)
  | move_after => skipn b (to_string c)
  end.
Proof. now destruct mode. Qed.

(** X1: [to(expected, mode)] looks for the first occurrence of [expected]
    in the view.  When there is none it returns false and leaves the
    receiver as it was, and it returns false only then.  When the view is
    [pre ++ expected ++ rest] with the first occurrence after [pre], it
    returns true; the view is then unchanged ([none]), starts at the
    occurrence ([move_before]) or just after it ([move_after]); the origin
    is kept. *)
Theorem to_seeks_first_occurrence (c : PatternSeeker) (expected : text)
    (mode : MoveMode) :
  (absent expected (to_string c) -> to expected mode c = Ok (false, c)) /\
  (forall c', to expected mode c = Ok (false, c') ->
     c' = c /\ absent expected (to_string c)) /\
  (forall pre rest,
     to_string c = pre ++ expected ++ rest ->
     first_at expected (to_string c) (length pre) ->
     exists c', to expected mode c = Ok (true, c') /\
       to_string c' =
         match mode with
         | none => to_string c
         | move_before => expected ++ rest
         | move_after => rest
         end /\
       m_originalPointer c' = m_originalPointer c).
Proof.
  split; [|split].
  - intros H. apply find_text_None in H. now rewrite to_run, H.
  - intros c'. rewrite to_run.
    destruct (find_text expected (to_string c)) eqn:F; [discriminate|].
    intros [= <-]. split; [reflexivity | now apply find_text_None].
  - intros pre rest Hs Hfirst. apply find_text_Some in Hfirst.
    rewrite to_run, Hfirst. eexists. split; [reflexivity|].
    rewrite to_string_moved, origin_moved, Hs. split; [|reflexivity].
    destruct mode; [reflexivity | apply skipn_length_app |].
    simple apply (skipn_app_app pre expected rest).
Qed.

(** X2: seeking to the start of a literal and then consuming it is seeking
    past it: [to(s, move_before)] followed, when it found [s], by
    [expect(s)] gives the result and the receiver of [to(s, move_after)]. *)
Theorem to_before_then_expect (c : PatternSeeker) (s : text) :
  (found <- to s move_before ;; if found then expect s else ret false) c =
  to s move_after c.
Proof.
  unfold bind. rewrite !to_run.
  destruct (find_text s (to_string c)) as [pos|] eqn:F; [|reflexivity].
  cbn [moved]. rewrite expect_run.
  assert (E : startsWith s (advanced pos c) = true).
  { unfold startsWith, sv.starts_with. fold (to_string (advanced pos c)).
    rewrite to_string_advanced. apply find_text_Some in F.
    destruct F as [(pre & post & Hs & <-) _]. rewrite Hs, skipn_length_app.
    apply starts_with_text_app. }
  now rewrite E, advanced_advanced.
Qed.

(** ** Extraction up to a literal or a terminator *)

(** X3: [extract(to, mode)] cuts the view at the first occurrence of [to]:
    when the view is [head ++ to ++ rest] with that first occurrence after
    [head], the result views [head], starts where the receiver's view
    starts and keeps its origin, and the receiver's view is then unchanged
    ([none]), [to ++ rest] ([move_before]) or [rest] ([move_after]), so
    that result, literal and remaining view make up the old view.  When
    [to] is absent the result is the empty sentinel and the receiver is
    unchanged. *)
Theorem extract_to_splits_view (c : PatternSeeker) (to_ : text)
    (mode : MoveMode) :
  (absent to_ (to_string c) ->
     extract_to to_ mode c = Ok (PatternSeeker_default, c)) /\
  (forall head rest,
     to_string c = head ++ to_ ++ rest ->
     first_at to_ (to_string c) (length head) ->
     exists r c', extract_to to_ mode c = Ok (r, c') /\
       to_string r = head /\
       sv.data (m_str r) = sv.data (m_str c) /\
       m_originalPointer r = m_originalPointer c /\
       m_originalPointer c' = m_originalPointer c /\
       to_string c' =
         match mode with
         | none => to_string c
         | move_before => to_ ++ rest
         | move_after => rest
         end).
Proof.
  split.
  - intros H. apply find_text_None in H. now rewrite extract_to_run, H.
  - intros head rest Hs Hfirst. apply find_text_Some in Hfirst.
    rewrite extract_to_run, Hfirst. eexists _, _. split; [reflexivity|].
    rewrite to_string_slice, to_string_moved, origin_moved, Hs.
    split; [apply firstn_length_app|].
    split; [unfold sv.data; simpl; now rewrite app_nil_r|].
    split; [reflexivity|]. split; [reflexivity|].
    destruct mode; [reflexivity | apply skipn_length_app |].
    simple apply (skipn_app_app head to_ rest).
Qed.

Lemma find_first_of_text_at (set head : text) (ch : ascii) (rest : text) :
  In ch set -> (forall x, In x head -> ~ In x set) ->
  find_first_of_text set (head ++ ch :: rest) = Some (length head).
Proof.
  intros Hch Hhead. induction head as [|x head IH]; simpl.
  - assert (E : existsb (Ascii.eqb ch) set = true).
    { apply existsb_exists. exists ch. split; [assumption|].
      apply Ascii.eqb_refl. }
    now rewrite E.
  - destruct (existsb (Ascii.eqb x) set) eqn:E.
    + apply existsb_exists in E as (y & Hy & Exy).
      apply Ascii.eqb_eq in Exy. subst y.
      exfalso. apply (Hhead x); [now left | assumption].
    + rewrite IH; [reflexivity|]. intros y Hy. apply Hhead. now right.
Qed.

(** X4: [extractUntilOneOf(set, mode)] cuts the view at its first character
    that belongs to [set]: when the view is [head ++ ch :: rest] with [ch]
    in [set] and no character of [head] in [set], the result views [head]
    and keeps the origin.  Only [move_after] moves the receiver, past the
    one terminator [ch]; [move_before] leaves it where it was, as [none]
    does.  When no character of the view is in [set] the result is the
    empty sentinel and the receiver is unchanged. *)
Theorem extractUntilOneOf_stops_at_terminator (c : PatternSeeker)
    (set : text) (mode : MoveMode) :
  ((forall ch, In ch (to_string c) -> ~ In ch set) ->
     extractUntilOneOf set mode c = Ok (PatternSeeker_default, c)) /\
  (forall head ch rest,
     to_string c = head ++ ch :: rest ->
     In ch set ->
     (forall x, In x head -> ~ In x set) ->
     exists r c', extractUntilOneOf set mode c = Ok (r, c') /\
       to_string r = head /\
       m_originalPointer r = m_originalPointer c /\
       (mode <> move_after -> c' = c) /\
       (mode = move_after ->
          to_string c' = rest /\
          m_originalPointer c' = m_originalPointer c)).
Proof.
  split.
  - intros H. apply find_first_of_text_None in H.
    now rewrite extractUntilOneOf_run, H.
  - intros head ch rest Hs Hch Hhead.
    rewrite extractUntilOneOf_run, Hs,
      (@find_first_of_text_at set head ch rest Hch Hhead).
    eexists _, _. split; [reflexivity|].
    rewrite to_string_slice, Hs. split; [apply firstn_length_app|].
    split; [reflexivity|]. split.
    + intros N. now destruct mode.
    + intros ->. rewrite to_string_advanced, Hs. split; [|reflexivity].
      replace (head ++ ch :: rest) with (head ++ [ch] ++ rest) by reflexivity.
      simple apply (skipn_app_app head [ch] rest).
Qed.

(** ** White space *)

Lemma skipn_take_while (p : ascii -> bool) (s : text) :
  skipn (length (take_while p s)) s = drop_while p s.
Proof.
  rewrite <- (take_drop_while p s) at 2. apply skipn_length_app.
Qed.

Lemma take_while_all (p : ascii -> bool) (s : text) :
  forallb p (take_while p s) = true.
Proof.
  induction s as [|ch s IH]; simpl; [reflexivity|].
  destruct (p ch) eqn:E; simpl; [now rewrite E | reflexivity].
Qed.

Lemma drop_while_head (p : ascii -> bool) (s : text) (ch : ascii)
    (rest : text) :
  drop_while p s = ch :: rest -> p ch = false.
Proof.
  induction s as [|x s IH]; simpl; [discriminate|].
  destruct (p x) eqn:E; [exact IH|]. now intros [= <- _].
Qed.

Lemma take_while_drop_while (p : ascii -> bool) (s : text) :
  take_while p (drop_while p s) = [].
Proof.
  destruct (drop_while p s) as [|ch rest] eqn:D; [reflexivity|].
  simpl. now rewrite (drop_while_head _ _ D).
Qed.

(** X5: [skipWhiteSpaces] removes exactly the leading white space: the old
    view is a run [ws] of [isspace] characters followed by the new view,
    and the new view is empty or starts with a character that is not white
    space.  It never faults, keeps the origin, and a second call changes
    nothing. *)
Theorem skipWhiteSpaces_removes_leading_space (c : PatternSeeker) :
  exists ws c',
    skipWhiteSpaces c = Ok (tt, c') /\
    to_string c = ws ++ to_string c' /\
    forallb isspace ws = true /\
    (forall ch rest, to_string c' = ch :: rest -> isspace ch = false) /\
    c' = advanced (length ws) c /\
    m_originalPointer c' = m_originalPointer c /\
    skipWhiteSpaces c' = Ok (tt, c').
Proof.
  exists (take_while isspace (to_string c)).
  exists (advanced (length (take_while isspace (to_string c))) c).
  rewrite !skipWhiteSpaces_run, to_string_advanced, skipn_take_while.
  split; [reflexivity|].
  split; [symmetry; apply take_drop_while|].
  split; [apply take_while_all|].
  split; [intros ch rest; apply drop_while_head|].
  split; [reflexivity|]. split; [reflexivity|].
  rewrite take_while_drop_while. simpl. now rewrite advanced_0.
Qed.

(** ** The origin invariant and offsets *)

Section Rooted.

Lemma rooted_default : rooted PatternSeeker_default.
Proof. split; simpl; [reflexivity | lia]. Qed.

Lemma rooted_new (str : option string_view) : rooted (PatternSeeker_new str).
Proof. split; simpl; [reflexivity | lia]. Qed.

Lemma rooted_advanced (n : nat) (c : PatternSeeker) :
  rooted c -> rooted (advanced n c).
Proof.
  intros [B O]. split; simpl; [assumption|]. rewrite length_app. lia.
Qed.

Lemma rooted_moved (mode : MoveMode) (a b : nat) (c : PatternSeeker) :
  rooted c -> rooted (moved mode a b c).
Proof. destruct mode; simpl; auto using rooted_advanced. Qed.

Lemma rooted_slice (pos count : nat) (c : PatternSeeker) :
  rooted c -> rooted (slice pos count c).
Proof.
  intros [B O]. split; simpl; [assumption|]. rewrite length_app. lia.
Qed.

Lemma takeInt64_run (c : PatternSeeker) :
  takeInt64 c =
  let r := strtoll (sv.c_str (m_str c)) in
  if strto_consumed r <=? size c
  then Ok (if strto_erange r || (strto_consumed r =? 0) then None
           else Some (strto_value r),
           advanced (strto_consumed r) c)
  else Fault undefined_behaviour.
Proof.
  unfold takeInt64, bind, reading. cbv zeta.
  destruct (Nat.leb_spec (strto_consumed (strtoll (sv.c_str (m_str c))))
              (size c)) as [H|H].
  - rewrite remove_prefix_ok by assumption.
    now destruct (strto_erange _ || _).
  - now rewrite remove_prefix_overrun by assumption.
Qed.

Lemma keeps_rooted_ret {A} (a : A) : keeps_rooted (ret a).
Proof. intros c x c' R [= _ <-]. exact R. Qed.

Lemma keeps_rooted_reading {A} (f : PatternSeeker -> A) :
  keeps_rooted (reading f).
Proof. intros c x c' R [= _ <-]. exact R. Qed.

Lemma keeps_rooted_lift {A} (r : res A) : keeps_rooted (lift r).
Proof.
  intros c x c' R. unfold lift. destruct r; simpl; [|discriminate].
  intros [= _ <-]. exact R.
Qed.

Lemma keeps_rooted_bind {A B} (m : M A) (k : A -> M B) :
  keeps_rooted m -> (forall a, keeps_rooted (k a)) -> keeps_rooted (bind m k).
Proof.
  intros Hm Hk c b c' R. unfold bind.
  destruct (m c) as [[a c1]|f] eqn:E; [|discriminate].
  intros H. exact (Hk a c1 b c' (Hm c a c1 R E) H).
Qed.

Lemma keeps_rooted_remove_prefix (n : nat) :
  keeps_rooted (m_str_remove_prefix n).
Proof.
  intros c x c' R. destruct (Nat.leb_spec n (size c)) as [H|H].
  - rewrite remove_prefix_ok by assumption. intros [= _ <-].
    now apply rooted_advanced.
  - now rewrite remove_prefix_overrun by assumption.
Qed.

Lemma keeps_rooted_expect (s : text) : keeps_rooted (expect s).
Proof.
  intros c x c' R. rewrite expect_run.
  destruct (startsWith s c); intros [= _ <-];
    [now apply rooted_advanced | exact R].
Qed.

Lemma keeps_rooted_to (s : text) (mode : MoveMode) : keeps_rooted (to s mode).
Proof.
  intros c x c' R. rewrite to_run.
  destruct (find_text s (to_string c)); intros [= _ <-];
    [now apply rooted_moved | exact R].
Qed.

Lemma keeps_rooted_skipWhiteSpaces : keeps_rooted skipWhiteSpaces.
Proof.
  intros c x c' R. rewrite skipWhiteSpaces_run. intros [= _ <-].
  now apply rooted_advanced.
Qed.

Lemma keeps_rooted_takeUInt64 : keeps_rooted takeUInt64.
Proof.
  intros c x c' R. rewrite takeUInt64_run. cbv zeta.
  destruct (_ <=? _); [|discriminate]. intros [= _ <-].
  now apply rooted_advanced.
Qed.

Lemma keeps_rooted_takeInt64 : keeps_rooted takeInt64.
Proof.
  intros c x c' R. rewrite takeInt64_run. cbv zeta.
  destruct (_ <=? _); [|discriminate]. intros [= _ <-].
  now apply rooted_advanced.
Qed.

Lemma yields_rooted_ret (r : PatternSeeker) :
  rooted r -> yields_rooted (ret r).
Proof. intros Hr c x c' R [= <- <-]. now split. Qed.

Lemma yields_rooted_bind {A} (m : M A) (k : A -> M PatternSeeker) :
  keeps_rooted m -> (forall a, yields_rooted (k a)) ->
  yields_rooted (bind m k).
Proof.
  intros Hm Hk c b c' R. unfold bind.
  destruct (m c) as [[a c1]|f] eqn:E; [|discriminate].
  intros H. exact (Hk a c1 b c' (Hm c a c1 R E) H).
Qed.

Lemma yields_rooted_keeps (m : M PatternSeeker) :
  yields_rooted m -> keeps_rooted m.
Proof. intros H c r c' R E. now destruct (H c r c' R E). Qed.

Lemma yields_rooted_on_copy (body : M PatternSeeker) :
  yields_rooted body -> yields_rooted (on_copy body).
Proof.
  intros H c r c' R. unfold on_copy.
  destruct (body c) as [[a c1]|f] eqn:E; [|discriminate].
  intros [= <- <-]. split; [exact R|]. now destruct (H c a c1 R E).
Qed.

Lemma yields_rooted_extract_from_to (from to_ : text) (mode : MoveMode) :
  yields_rooted (extract_from_to from to_ mode).
Proof.
  intros c r c' R. rewrite extract_from_to_run.
  destruct (find_text from (to_string c));
    [destruct (find_text to_ _)|]; intros [= <- <-];
    auto using rooted_default, rooted_moved, rooted_slice.
Qed.

Lemma yields_rooted_extract_to (to_ : text) (mode : MoveMode) :
  yields_rooted (extract_to to_ mode).
Proof.
  intros c r c' R. rewrite extract_to_run.
  destruct (find_text to_ (to_string c)); intros [= <- <-];
    auto using rooted_default, rooted_moved, rooted_slice.
Qed.

Lemma yields_rooted_extractUntilOneOf (set : text) (mode : MoveMode) :
  yields_rooted (extractUntilOneOf set mode).
Proof.
  intros c r c' R. rewrite extractUntilOneOf_run.
  destruct (find_first_of_text set (to_string c)); intros [= <- <-];
    [|auto using rooted_default].
  split; [destruct mode|]; auto using rooted_advanced, rooted_slice.
Qed.

Lemma yields_rooted_extract_char (start end_ : ascii) (mode : MoveMode) :
  yields_rooted (extract_char start end_ mode).
Proof.
  intros c r c' R. rewrite extract_char_run.
  destruct (find_text [start] (to_string c));
    [destruct (extract_char_loop_int _ _ _ _ _) as [[i depth]|f];
     [destruct (depth =? 0)%Z|discriminate]|]; intros [= <- <-];
    auto using rooted_default, rooted_moved, rooted_slice.
Qed.

Lemma yields_rooted_extract_size (n : nat) (mode : MoveMode) :
  yields_rooted (extract_size n mode).
Proof.
  intros c r c' R. rewrite extract_size_run.
  destruct mode; [| |destruct (n <=? size c); [|discriminate]];
    intros [= <- <-]; auto using rooted_advanced, rooted_slice.
Qed.

Lemma yields_rooted_getXmlTag (prop : text) (mode : MoveMode) :
  yields_rooted (getXmlTag prop mode).
Proof.
  intros c r c' R. rewrite getXmlTag_run.
  destruct (find_text _ (to_string c));
    [destruct (find_text _ _)|]; intros [= <- <-];
    auto using rooted_default, rooted_moved, rooted_slice.
Qed.

Lemma yields_rooted_getXmlTagBody (prop : text) (mode : MoveMode) :
  yields_rooted (getXmlTagBody prop mode).
Proof.
  unfold getXmlTagBody. apply yields_rooted_bind.
  - apply yields_rooted_keeps, yields_rooted_getXmlTag.
  - intros res. destruct (isEmpty res);
      [apply yields_rooted_ret, rooted_default|].
    destruct (sv.rfind _ _); [|apply yields_rooted_ret, rooted_default].
    apply yields_rooted_bind; [apply keeps_rooted_lift|].
    intros body. apply yields_rooted_ret, rooted_new.
Qed.

End Rooted.

Ltac rooted_step :=
  first
    [ apply yields_rooted_ret, rooted_default
    | apply yields_rooted_extract_from_to | apply yields_rooted_extract_to
    | apply yields_rooted_extractUntilOneOf | apply yields_rooted_extract_char
    | apply yields_rooted_bind;
      [first [apply keeps_rooted_to | apply keeps_rooted_expect
             | apply keeps_rooted_skipWhiteSpaces
             | apply keeps_rooted_reading]
      | intros ?]
    | match goal with
      | |- yields_rooted (if ?b then _ else _) => destruct b
      end ].

(** X6: the origin invariant.  The cursors the constructors build have
    their origin in the array of their view, at or before the view's start;
    every method keeps that true of the receiver, and every cursor a method
    returns has it too.  On such a cursor [getOffset()] and
    [getOriginalPosition()] are defined and equal, and they are the
    distance from the origin to the view's start. *)
Theorem cursors_stay_rooted :
  rooted PatternSeeker_default /\
  (forall str, rooted (PatternSeeker_new str)) /\
  (forall s, keeps_rooted (expect s)) /\
  (forall s mode, keeps_rooted (to s mode)) /\
  (forall n, keeps_rooted (skip n)) /\
  keeps_rooted skipWhiteSpaces /\
  keeps_rooted takeUInt64 /\
  keeps_rooted takeInt64 /\
  (forall from to_ mode, yields_rooted (extract_from_to from to_ mode)) /\
  (forall to_ mode, yields_rooted (extract_to to_ mode)) /\
  (forall set mode, yields_rooted (extractUntilOneOf set mode)) /\
  (forall start end_ mode, yields_rooted (extract_char start end_ mode)) /\
  (forall n mode, yields_rooted (extract_size n mode)) /\
  (forall prop, yields_rooted (getJsonProp prop)) /\
  (forall prop mode, yields_rooted (getXmlTag prop mode)) /\
  (forall prop mode, yields_rooted (getXmlTagBody prop mode)) /\
  (forall prop, yields_rooted (getXmlAttr prop)) /\
  (forall c, rooted c ->
     exists d, getOffset c = Ok d /\ getOriginalPosition c = Ok d /\
       (addressable c ->
        d = Z.of_nat (length (sv_before (m_str c))
                      - p_offset (m_originalPointer c)))).
Proof.
  split; [apply rooted_default|].
  split; [apply rooted_new|].
  split; [apply keeps_rooted_expect|].
  split; [apply keeps_rooted_to|].
  split; [intros; apply keeps_rooted_remove_prefix|].
  split; [apply keeps_rooted_skipWhiteSpaces|].
  split; [apply keeps_rooted_takeUInt64|].
  split; [apply keeps_rooted_takeInt64|].
  split; [intros; apply yields_rooted_extract_from_to|].
  split; [intros; apply yields_rooted_extract_to|].
  split; [intros; apply yields_rooted_extractUntilOneOf|].
  split; [intros; apply yields_rooted_extract_char|].
  split; [intros; apply yields_rooted_extract_size|].
  split; [intros; unfold getJsonProp; apply yields_rooted_on_copy;
          repeat rooted_step|].
  split; [intros; apply yields_rooted_getXmlTag|].
  split; [intros; apply yields_rooted_getXmlTagBody|].
  split; [intros; unfold getXmlAttr; apply yields_rooted_on_copy;
          repeat rooted_step|].
  intros c [B O]. unfold getOffset, getOriginalPosition, ptr_diff. simpl.
  rewrite B, Nat.eqb_refl. simpl. eexists. split; [reflexivity|].
  split; [reflexivity|]. unfold addressable. intros A.
  rewrite Nat2Z.inj_sub by exact O.
  apply Z.mod_small. unfold ULLONG_MAX in *. lia.
Qed.

Lemma getOffset_distance (c : PatternSeeker) :
  rooted c -> addressable c ->
  getOffset c =
  Ok (Z.of_nat (length (sv_before (m_str c))
                - p_offset (m_originalPointer c))).
Proof.
  intros [B O] A. unfold getOffset, ptr_diff. simpl.
  rewrite B, Nat.eqb_refl. simpl. f_equal.
  rewrite Nat2Z.inj_sub by exact O.
  apply Z.mod_small. unfold addressable, ULLONG_MAX in *. lia.
Qed.

Lemma addressable_advanced (n : nat) (c : PatternSeeker) :
  n <= size c -> addressable c -> addressable (advanced n c).
Proof.
  unfold addressable, size, sv.size. simpl. intros H A.
  rewrite length_app, length_firstn, length_skipn. unfold to_string. lia.
Qed.

Lemma addressable_slice (pos count : nat) (c : PatternSeeker) :
  pos <= size c -> addressable c -> addressable (slice pos count c).
Proof.
  unfold addressable, size, sv.size. simpl. intros H A.
  rewrite length_app, !length_firstn, length_skipn. lia.
Qed.

Lemma getOffset_advanced (n : nat) (c : PatternSeeker) (d : Z) :
  rooted c -> addressable c -> n <= size c ->
  getOffset c = Ok d ->
  getOffset (advanced n c) = Ok (d + Z.of_nat n)%Z.
Proof.
  intros R A H. pose proof R as [B O].
  rewrite (getOffset_distance R A). intros [= <-].
  rewrite getOffset_distance
    by auto using rooted_advanced, addressable_advanced.
  f_equal. simpl. rewrite length_app, length_firstn.
  unfold size, sv.size, to_string in *. lia.
Qed.

Lemma getOffset_slice (pos count : nat) (c : PatternSeeker) (d : Z) :
  rooted c -> addressable c -> pos <= size c ->
  getOffset c = Ok d ->
  getOffset (slice pos count c) = Ok (d + Z.of_nat pos)%Z.
Proof.
  intros R A H. pose proof R as [B O].
  rewrite (getOffset_distance R A). intros [= <-].
  rewrite getOffset_distance by auto using rooted_slice, addressable_slice.
  f_equal. simpl. rewrite length_app, length_firstn.
  unfold size, sv.size in *. lia.
Qed.

(** X7: [skip(n)] with [n] within the view removes the first [n]
    characters and raises [getOffset()] by [n]; with [n] beyond the view it
    is outside the precondition of [remove_prefix]. *)
Theorem skip_advances_offset (c : PatternSeeker) (n : nat) :
  rooted c -> addressable c ->
  (n <= size c ->
   exists d, getOffset c = Ok d /\
     skip n c = Ok (tt, advanced n c) /\
     to_string (advanced n c) = skipn n (to_string c) /\
     size (advanced n c) = size c - n /\
     getOffset (advanced n c) = Ok (d + Z.of_nat n)%Z) /\
  (size c < n -> skip n c = Fault undefined_behaviour).
Proof.
  intros R A. split.
  - intros H. eexists. split; [apply (getOffset_distance R A)|].
    split; [now apply remove_prefix_ok|]. split; [reflexivity|].
    split; [apply size_advanced|].
    apply getOffset_advanced; auto using getOffset_distance.
  - intros H. now apply remove_prefix_overrun.
Qed.

Lemma skip_advances_offset_witness :
  (7 <= size hello_sample ->
   exists d, getOffset hello_sample = Ok d /\
     skip 7 hello_sample = Ok (tt, advanced 7 hello_sample) /\
     to_string (advanced 7 hello_sample) = skipn 7 (to_string hello_sample) /\
     size (advanced 7 hello_sample) = size hello_sample - 7 /\
     getOffset (advanced 7 hello_sample) = Ok (d + Z.of_nat 7)%Z) /\
  (size hello_sample < 7 -> skip 7 hello_sample = Fault undefined_behaviour).
Proof.
  apply (@skip_advances_offset hello_sample 7).
  - apply rooted_new.
  - unfold addressable, ULLONG_MAX. simpl. lia.
Defined.

(** X8: offsets of an extraction between two literals.  On a receiver at
    offset [d] whose view is [pre ++ from ++ mid ++ to ++ post], with the
    first occurrences of [from] and (after it) of [to] there, the cursor
    [extract(from, to, mode)] returns is at offset
    [d + |pre| + |from|]; the receiver is left at [d] ([none]), at
    [d + |pre|] ([move_before]) or at
    [d + |pre| + |from| + |mid| + |to|] ([move_after]). *)
Theorem extract_from_to_offsets (c : PatternSeeker) (from to_ : text)
    (mode : MoveMode) (pre mid post : text) (d : Z) :
  rooted c -> addressable c ->
  getOffset c = Ok d ->
  to_string c = pre ++ from ++ mid ++ to_ ++ post ->
  first_at from (to_string c) (length pre) ->
  first_at to_ (mid ++ to_ ++ post) (length mid) ->
  exists r c', extract_from_to from to_ mode c = Ok (r, c') /\
    getOffset r = Ok (d + Z.of_nat (length pre + length from))%Z /\
    getOffset c' =
      Ok (d + Z.of_nat
                match mode with
                | none => 0
                | move_before => length pre
                | move_after =>
                    length pre + length from + length mid + length to_
                end)%Z.
Proof.
  intros R A D Hs Hfrom Hto.
  apply find_text_Some in Hfrom. apply find_text_Some in Hto.
  assert (L : length (to_string c) =
              length pre + length from + length mid + length to_
              + length post)
    by (rewrite Hs, !length_app; lia).
  rewrite extract_from_to_run, Hfrom, Hs, skipn_app_app, Hto.
  eexists _, _. split; [reflexivity|]. split.
  - apply getOffset_slice; try assumption. rewrite size_length. lia.
  - destruct mode; simpl moved.
    + now rewrite Z.add_0_r.
    + apply getOffset_advanced; try assumption. rewrite size_length. lia.
    + apply getOffset_advanced; try assumption. rewrite size_length. lia.
Qed.

Lemma extract_from_to_offsets_witness :
  exists r c',
    extract_from_to (lit "<name>") (lit "</name>") move_after hello_sample =
      Ok (r, c') /\
    getOffset r =
      Ok (0 + Z.of_nat (length (lit "Hello, ") + length (lit "<name>")))%Z /\
    getOffset c' =
      Ok (0 + Z.of_nat (length (lit "Hello, ") + length (lit "<name>")
                        + length (lit "World") + length (lit "</name>")))%Z.
Proof.
  apply (@extract_from_to_offsets hello_sample (lit "<name>") (lit "</name>")
           move_after (lit "Hello, ") (lit "World") (lit "!") 0%Z).
  - apply rooted_new.
  - unfold addressable, ULLONG_MAX. simpl. lia.
  - reflexivity.
  - reflexivity.
  - apply find_text_Some. reflexivity.
  - apply find_text_Some. reflexivity.
Defined.

(** ** Signed numbers and defaults *)

Lemma strtoll_spec (s : text) :
  strtoll s =
  match digits_of s with
  | [] => StrTo 0 0 false
  | _ :: _ =>
      if (LLONG_MAX <? signed_value s)%Z
      then StrTo LLONG_MAX (numeric_length s) true
      else if (signed_value s <? LLONG_MIN)%Z
           then StrTo LLONG_MIN (numeric_length s) true
           else StrTo (signed_value s) (numeric_length s) false
  end.
Proof.
  unfold strtoll, numeric_length, signed_value.
  rewrite strto_spaces_spec, strto_sign_spec, strto_digits_spec.
  fold (sign_of s). fold (digits_of s). fold (spaces_of s).
  destruct (digits_of s) as [|d ds] eqn:E; [reflexivity|].
  cbn [length Nat.add Nat.eqb].
  rewrite Z.mul_0_l, Z.add_0_l. reflexivity.
Qed.

(** What the two conversions give on a view they stop within. *)
Lemma takeUInt64_within_view (c : PatternSeeker) :
  numeric_length (sv.c_str (m_str c)) <= size c ->
  takeUInt64 c =
  Ok (unsigned_result (to_string c),
      advanced (numeric_length (to_string c)) c).
Proof.
  intros H. unfold sv.c_str in H. fold (to_string c) in H.
  destruct (numeric_prefix_stable (to_string c) (sv_after (m_str c)) H)
    as (Ed & En & Es).
  rewrite En in H.
  rewrite takeUInt64_run, strtoull_spec. cbv zeta.
  unfold sv.c_str, unsigned_result. fold (to_string c). rewrite Ed, En.
  destruct (digits_of (to_string c)) as [|d ds] eqn:D.
  - simpl. now rewrite numeric_length_no_digits by assumption.
  - rewrite (Es ltac:(discriminate)).
    assert (Nd : digits_of (to_string c) <> []) by (rewrite D; discriminate).
    pose proof (@numeric_length_digits (to_string c) Nd) as L.
    rewrite D in L. simpl in L.
    assert (Z0 : (numeric_length (to_string c) =? 0) = false)
      by (apply Nat.eqb_neq; lia).
    apply Nat.leb_le in H.
    destruct (Z.ltb_spec ULLONG_MAX (decimal_value (d :: ds))) as [O|O];
      destruct (Z.leb_spec (decimal_value (d :: ds)) ULLONG_MAX) as [O'|O'];
      try lia; cbn [strto_consumed strto_erange strto_value orb];
      now rewrite H, ?Z0.
Qed.

Lemma takeInt64_within_view (c : PatternSeeker) :
  numeric_length (sv.c_str (m_str c)) <= size c ->
  takeInt64 c =
  Ok (signed_result (to_string c),
      advanced (numeric_length (to_string c)) c).
Proof.
  intros H. unfold sv.c_str in H. fold (to_string c) in H.
  destruct (numeric_prefix_stable (to_string c) (sv_after (m_str c)) H)
    as (Ed & En & Es).
  rewrite En in H.
  rewrite takeInt64_run, strtoll_spec. cbv zeta.
  unfold sv.c_str, signed_result, signed_value. fold (to_string c).
  rewrite Ed, En.
  destruct (digits_of (to_string c)) as [|d ds] eqn:D.
  - simpl. now rewrite numeric_length_no_digits by assumption.
  - rewrite (Es ltac:(discriminate)).
    assert (Nd : digits_of (to_string c) <> []) by (rewrite D; discriminate).
    pose proof (@numeric_length_digits (to_string c) Nd) as L.
    rewrite D in L. simpl in L.
    assert (Z0 : (numeric_length (to_string c) =? 0) = false)
      by (apply Nat.eqb_neq; lia).
    apply Nat.leb_le in H.
    set (v := (if is_minus (sign_of (to_string c))
               then (- decimal_value (d :: ds))%Z
               else decimal_value (d :: ds))).
    destruct (Z.ltb_spec LLONG_MAX v) as [O|O];
      destruct (Z.leb_spec v LLONG_MAX) as [O'|O']; try lia;
      destruct (Z.ltb_spec v LLONG_MIN) as [U|U];
      destruct (Z.leb_spec LLONG_MIN v) as [U'|U']; try lia;
      cbn [strto_consumed strto_erange strto_value orb andb];
      now rewrite H, ?Z0.
Qed.

(** X9: [takeInt64] on a view the conversion stops within.  It returns a
    value exactly when the view holds, after optional white space and an
    optional sign, at least one digit and the signed number they denote
    lies in [LLONG_MIN .. LLONG_MAX]; the value is that number.  The view
    advances past white space, sign and digits, also when the number is out
    of range, and is unchanged when there is no digit. *)
Theorem takeInt64_spec (c : PatternSeeker) :
  numeric_length (sv.c_str (m_str c)) <= size c ->
  exists r c', takeInt64 c = Ok (r, c') /\
    (r <> None <->
       digits_of (to_string c) <> [] /\
       (LLONG_MIN <= signed_value (to_string c) <= LLONG_MAX)%Z) /\
    (forall v, r = Some v -> v = signed_value (to_string c)) /\
    c' = advanced (numeric_length (to_string c)) c /\
    (digits_of (to_string c) = [] -> c' = c).
Proof.
  intros H. rewrite (@takeInt64_within_view c H).
  eexists _, _. split; [reflexivity|]. unfold signed_result.
  destruct (digits_of (to_string c)) as [|d ds] eqn:D.
  - repeat split; try congruence.
    + intros [N _]. congruence.
    + intros _. rewrite numeric_length_no_digits by assumption.
      apply advanced_0.
  - destruct (Z.leb_spec LLONG_MIN (signed_value (to_string c)));
      destruct (Z.leb_spec (signed_value (to_string c)) LLONG_MAX);
      cbn [andb]; repeat split; try congruence; try lia;
      intros [_ N]; lia.
Qed.

Lemma takeInt64_spec_witness :
  exists r c', takeInt64 signed_sample = Ok (r, c') /\
    (r <> None <->
       digits_of (to_string signed_sample) <> [] /\
       (LLONG_MIN <= signed_value (to_string signed_sample) <= LLONG_MAX)%Z) /\
    (forall v, r = Some v -> v = signed_value (to_string signed_sample)) /\
    c' = advanced (numeric_length (to_string signed_sample)) signed_sample /\
    (digits_of (to_string signed_sample) = [] -> c' = signed_sample).
Proof.
  apply (@takeInt64_spec signed_sample). vm_compute. lia.
Defined.

(** X10: the overloads with a default, on a view the conversion stops
    within: [takeUInt64(def)] and [takeInt64(def)] return the number read,
    or [def] when there is no digit or the number is out of range, and they
    move the view exactly as the overloads without default do; without a
    digit the view is unchanged. *)
Theorem take_with_default (c : PatternSeeker) (def : Z) :
  numeric_length (sv.c_str (m_str c)) <= size c ->
  takeUInt64_or def c =
    Ok (match unsigned_result (to_string c) with
        | Some v => v
        | None => def
        end,
        advanced (numeric_length (to_string c)) c) /\
  takeInt64_or def c =
    Ok (match signed_result (to_string c) with
        | Some v => v
        | None => def
        end,
        advanced (numeric_length (to_string c)) c) /\
  (digits_of (to_string c) = [] ->
   takeUInt64_or def c = Ok (def, c) /\ takeInt64_or def c = Ok (def, c)).
Proof.
  intros H.
  assert (U : takeUInt64_or def c =
              Ok (match unsigned_result (to_string c) with
                  | Some v => v
                  | None => def
                  end, advanced (numeric_length (to_string c)) c)).
  { unfold takeUInt64_or, bind. rewrite (@takeUInt64_within_view c H).
    now destruct (unsigned_result (to_string c)). }
  assert (S : takeInt64_or def c =
              Ok (match signed_result (to_string c) with
                  | Some v => v
                  | None => def
                  end, advanced (numeric_length (to_string c)) c)).
  { unfold takeInt64_or, bind. rewrite (@takeInt64_within_view c H).
    now destruct (signed_result (to_string c)). }
  split; [exact U|]. split; [exact S|].
  intros D. rewrite U, S. unfold unsigned_result, signed_result.
  rewrite D, numeric_length_no_digits by assumption.
  now rewrite advanced_0.
Qed.

Lemma take_with_default_witness :
  takeUInt64_or 7 number_sample =
    Ok (match unsigned_result (to_string number_sample) with
        | Some v => v
        | None => 7%Z
        end,
        advanced (numeric_length (to_string number_sample)) number_sample) /\
  takeInt64_or 7 number_sample =
    Ok (match signed_result (to_string number_sample) with
        | Some v => v
        | None => 7%Z
        end,
        advanced (numeric_length (to_string number_sample)) number_sample) /\
  (digits_of (to_string number_sample) = [] ->
   takeUInt64_or 7 number_sample = Ok (7%Z, number_sample) /\
   takeInt64_or 7 number_sample = Ok (7%Z, number_sample)).
Proof.
  apply (@take_with_default number_sample 7%Z). vm_compute. lia.
Defined.

(** ** XML tags *)

Lemma firstn_app_exact (a b : text) (n : nat) :
  n = length a -> firstn n (a ++ b) = a.
Proof. intros ->. apply firstn_length_app. Qed.

(** X11: [getXmlTag(prop, mode)] returns the span from the first [<prop]
    of the view through the first [</prop>] after it.  When the view is
    [pre ++ <prop ++ mid ++ </prop> ++ post] with those first occurrences,
    the result views [<prop ++ mid ++ </prop>] and keeps the origin, and
    the receiver's view is unchanged ([none]), starts at the tag
    ([move_before]) or is [post] ([move_after]).  Nothing is required of
    the character after [<prop].  When [<prop] is absent, or [</prop>] is
    absent after it, the result is the empty sentinel and the receiver is
    unchanged. *)
Theorem getXmlTag_spans_element (c : PatternSeeker) (prop : text)
    (mode : MoveMode) :
  (absent (lit "<" ++ prop) (to_string c) ->
     getXmlTag prop mode c = Ok (PatternSeeker_default, c)) /\
  (forall pre rest,
     to_string c = pre ++ (lit "<" ++ prop) ++ rest ->
     first_at (lit "<" ++ prop) (to_string c) (length pre) ->
     absent (lit "</" ++ prop ++ lit ">") rest ->
     getXmlTag prop mode c = Ok (PatternSeeker_default, c)) /\
  (forall pre mid post,
     to_string c =
       pre ++ (lit "<" ++ prop) ++ mid ++ (lit "</" ++ prop ++ lit ">")
           ++ post ->
     first_at (lit "<" ++ prop) (to_string c) (length pre) ->
     first_at (lit "</" ++ prop ++ lit ">")
       (mid ++ (lit "</" ++ prop ++ lit ">") ++ post) (length mid) ->
     exists r c', getXmlTag prop mode c = Ok (r, c') /\
       to_string r =
         (lit "<" ++ prop) ++ mid ++ (lit "</" ++ prop ++ lit ">") /\
       m_originalPointer r = m_originalPointer c /\
       m_originalPointer c' = m_originalPointer c /\
       to_string c' =
         match mode with
         | none => to_string c
         | move_before =>
             (lit "<" ++ prop) ++ mid ++ (lit "</" ++ prop ++ lit ">")
               ++ post
         | move_after => post
         end).
Proof.
  pose proof (getXmlTag_run prop mode c) as Run. cbv zeta in Run.
  set (st := lit "<" ++ prop) in *.
  set (et := lit "</" ++ prop ++ lit ">") in *.
  split; [|split].
  - intros H. apply find_text_None in H. now rewrite Run, H.
  - intros pre rest Hs Hst Het.
    apply find_text_Some in Hst. apply find_text_None in Het.
    now rewrite Run, Hst, Hs, skipn_app_app, Het.
  - intros pre mid post Hs Hst Het.
    apply find_text_Some in Hst. apply find_text_Some in Het.
    rewrite Run, Hst, Hs, skipn_app_app, Het.
    eexists _, _. split; [reflexivity|].
    rewrite to_string_slice, to_string_moved, !origin_moved, Hs.
    split.
    + rewrite skipn_length_app.
      replace (st ++ mid ++ et ++ post) with ((st ++ mid ++ et) ++ post)
        by (now rewrite <- !app_assoc).
      apply firstn_app_exact. rewrite !length_app. lia.
    + split; [reflexivity|]. split; [reflexivity|].
      destruct mode; [reflexivity | apply skipn_length_app |].
      replace (pre ++ st ++ mid ++ et ++ post)
        with (pre ++ (st ++ mid ++ et) ++ post)
        by (now rewrite <- !app_assoc).
      replace (length pre + length st + length mid + length et)
        with (length pre + length (st ++ mid ++ et))
        by (rewrite !length_app; lia).
      apply skipn_app_app.
Qed.

Lemma rfind_text_short (pat s : text) :
  length s < length pat -> rfind_text pat s = None.
Proof.
  induction s as [|ch s IH]; intros H; simpl.
  - destruct pat; [simpl in H; lia | reflexivity].
  - rewrite IH by (simpl in H; lia).
    destruct (starts_with_text (ch :: s) pat) eqn:E; [|reflexivity].
    apply starts_with_text_length in E. lia.
Qed.

Lemma rfind_text_self (pat : text) : rfind_text pat pat = Some 0.
Proof.
  destruct pat as [|ch pat]; [reflexivity|].
  cbn [rfind_text]. rewrite rfind_text_short by (simpl; lia).
  assert (E : starts_with_text (ch :: pat) (ch :: pat) = true)
    by (apply starts_with_text_iff; exists []; now rewrite app_nil_r).
  now rewrite E.
Qed.

(** The last occurrence of a literal in a text that ends with it. *)
Lemma rfind_text_suffix (pat x : text) :
  rfind_text pat (x ++ pat) = Some (length x).
Proof.
  induction x as [|ch x IH]; [apply rfind_text_self|].
  simpl. now rewrite IH.
Qed.

Lemma getOffset_new (str : option string_view) :
  getOffset (PatternSeeker_new str) = Ok 0%Z.
Proof.
  unfold getOffset, PatternSeeker_new, ptr_diff. simpl.
  now rewrite Nat.eqb_refl, Z.sub_diag.
Qed.

(** [getXmlTagBody] returns on every receiver, and what it returns is the
    empty sentinel or a cursor built by the public constructor. *)
Lemma getXmlTagBody_total (prop : text) (mode : MoveMode)
    (c : PatternSeeker) :
  exists r c', getXmlTagBody prop mode c = Ok (r, c') /\
    (r = PatternSeeker_default \/
     exists body, r = PatternSeeker_new (Some body)) /\
    (exists tag, getXmlTag prop mode c = Ok (tag, c')).
Proof.
  unfold getXmlTagBody, bind.
  pose proof (getXmlTag_run prop mode c) as Run. cbv zeta in Run.
  assert (T : exists tag c', getXmlTag prop mode c = Ok (tag, c')).
  { rewrite Run. destruct (find_text _ (to_string c)); [|now eexists _, _].
    destruct (find_text _ _); now eexists _, _. }
  destruct T as (tag & c' & T). rewrite T.
  destruct (isEmpty tag); [exists PatternSeeker_default, c'; eauto|].
  destruct (sv.rfind _ _) as [endPos|];
    [|exists PatternSeeker_default, c'; eauto].
  unfold lift, sv.substr.
  assert (B : (match sv.find_char (m_str tag) ">" with
               | Some p => p + 1
               | None => 0
               end <=? sv.size (m_str tag)) = true).
  { apply Nat.leb_le. unfold sv.find_char. rewrite find_0.
    destruct (find_text [">"%char] (sv_chars (m_str tag))) as [p|] eqn:F;
      [|lia].
    apply find_text_bound in F. simpl in F. unfold sv.size. lia. }
  rewrite B. simpl. eexists _, c'. split; [reflexivity|]. eauto.
Qed.

(** X13: [getXmlTagBody] never faults, and the cursor it returns takes its
    own start as origin: its [getOffset()] is 0 wherever the body lies in
    the buffer.  The receiver is left as [getXmlTag] leaves it. *)
Theorem getXmlTagBody_offset_is_zero (prop : text) (mode : MoveMode)
    (c : PatternSeeker) :
  exists r c', getXmlTagBody prop mode c = Ok (r, c') /\
    getOffset r = Ok 0%Z /\
    getOriginalPosition r = Ok 0%Z /\
    m_originalPointer r = sv.data (m_str r) /\
    exists tag, getXmlTag prop mode c = Ok (tag, c').
Proof.
  destruct (getXmlTagBody_total prop mode c) as (r & c' & E & Hr & Ht).
  exists r, c'. split; [exact E|].
  destruct Hr as [->|[body ->]]; repeat split; try exact Ht;
    apply getOffset_new.
Qed.

Lemma getXmlTag_found (c : PatternSeeker) (prop : text) (mode : MoveMode)
    (pre mid post : text) :
  to_string c =
    pre ++ (lit "<" ++ prop) ++ mid ++ (lit "</" ++ prop ++ lit ">")
        ++ post ->
  first_at (lit "<" ++ prop) (to_string c) (length pre) ->
  first_at (lit "</" ++ prop ++ lit ">")
    (mid ++ (lit "</" ++ prop ++ lit ">") ++ post) (length mid) ->
  exists tag,
    getXmlTag prop mode c =
      Ok (tag,
          moved mode (length pre)
            (length pre + length (lit "<" ++ prop) + length mid
             + length (lit "</" ++ prop ++ lit ">")) c) /\
    to_string tag =
      (lit "<" ++ prop) ++ mid ++ (lit "</" ++ prop ++ lit ">").
Proof.
  pose proof (getXmlTag_run prop mode c) as Run. cbv zeta in Run.
  set (st := lit "<" ++ prop) in *.
  set (et := lit "</" ++ prop ++ lit ">") in *.
  intros Hs Hst Het.
  apply find_text_Some in Hst. apply find_text_Some in Het.
  rewrite Run, Hst, Hs, skipn_app_app, Het.
  eexists. split; [reflexivity|].
  rewrite to_string_slice, Hs, skipn_length_app.
  replace (st ++ mid ++ et ++ post) with ((st ++ mid ++ et) ++ post)
    by (now rewrite <- !app_assoc).
  apply firstn_app_exact. rewrite !length_app. lia.
Qed.

(** X12: [getXmlTagBody(prop, mode)] on an element
    [<prop attrs>body</prop>]: when the view is
    [pre ++ <prop ++ attrs ++ > ++ body ++ </prop> ++ post], with the first
    [<prop] after [pre], the first [</prop>] after that at the end of
    [body], and no [>] in [prop] or [attrs], the result views [body].  Its
    offset is 0, and the receiver moves as [getXmlTag] moves it. *)
Theorem getXmlTagBody_returns_body (c : PatternSeeker) (prop : text)
    (mode : MoveMode) (pre attrs body post : text) :
  to_string c =
    pre ++ (lit "<" ++ prop) ++ (attrs ++ ">"%char :: body)
        ++ (lit "</" ++ prop ++ lit ">") ++ post ->
  first_at (lit "<" ++ prop) (to_string c) (length pre) ->
  first_at (lit "</" ++ prop ++ lit ">")
    ((attrs ++ ">"%char :: body) ++ (lit "</" ++ prop ++ lit ">") ++ post)
    (length (attrs ++ ">"%char :: body)) ->
  ~ In ">"%char prop ->
  ~ In ">"%char attrs ->
  exists r c', getXmlTagBody prop mode c = Ok (r, c') /\
    to_string r = body /\
    getOffset r = Ok 0%Z /\
    to_string c' =
      match mode with
      | none => to_string c
      | move_before =>
          (lit "<" ++ prop) ++ (attrs ++ ">"%char :: body)
            ++ (lit "</" ++ prop ++ lit ">") ++ post
      | move_after => post
      end.
Proof.
  intros Hs Hst Het Hprop Hattrs.
  destruct (@getXmlTag_found c prop mode pre (attrs ++ ">"%char :: body)
              post Hs Hst Het) as (tag & T & Htag).
  set (st := lit "<" ++ prop) in *.
  set (et := lit "</" ++ prop ++ lit ">") in *.
  unfold getXmlTagBody, bind. fold et. rewrite T.
  assert (E : isEmpty tag = false).
  { unfold isEmpty. rewrite size_length, Htag. reflexivity. }
  rewrite E.
  assert (F : sv.find_char (m_str tag) ">" =
              Some (length (st ++ attrs))).
  { unfold sv.find_char. rewrite find_0. fold (to_string tag).
    rewrite Htag.
    replace (st ++ (attrs ++ ">"%char :: body) ++ et)
      with ((st ++ attrs) ++ ">"%char :: (body ++ et))
      by (now rewrite <- !app_assoc).
    apply find_text_char_after. intros Hin.
    apply in_app_or in Hin as [Hin|Hin]; [|contradiction].
    destruct Hin as [Hin|Hin]; [discriminate | contradiction]. }
  assert (R : sv.rfind (m_str tag) et =
              Some (length (st ++ attrs ++ ">"%char :: body))).
  { unfold sv.rfind. fold (to_string tag). rewrite Htag.
    replace (st ++ (attrs ++ ">"%char :: body) ++ et)
      with ((st ++ attrs ++ ">"%char :: body) ++ et)
      by (now rewrite <- !app_assoc).
    apply rfind_text_suffix. }
  rewrite F, R.
  assert (Le : (length (st ++ attrs) + 1 <=?
                length (st ++ attrs ++ ">"%char :: body)) = true)
    by (apply Nat.leb_le; rewrite !length_app; simpl; lia).
  rewrite Le. unfold lift.
  replace (length (st ++ attrs ++ ">"%char :: body)
           - (length (st ++ attrs) + 1))
    with (length body) by (rewrite !length_app; simpl; lia).
  rewrite substr_ok
    by (unfold sv.size; fold (to_string tag);
        rewrite Htag, !length_app; simpl; lia).
  cbn [res_bind ret]. eexists _, _. split; [reflexivity|].
  split; [|split; [apply getOffset_new|]].
  - unfold to_string, PatternSeeker_new, or_EMPTY_STR, sv.window.
    cbn [m_str sv_chars]. fold (to_string tag). rewrite Htag.
    replace (st ++ (attrs ++ ">"%char :: body) ++ et)
      with ((st ++ attrs ++ [">"%char]) ++ body ++ et)
      by (now rewrite <- !app_assoc).
    replace (length (st ++ attrs) + 1)
      with (length (st ++ attrs ++ [">"%char]))
      by (rewrite !length_app; simpl; lia).
    rewrite skipn_length_app. apply firstn_length_app.
  - rewrite to_string_moved, Hs.
    destruct mode; [reflexivity | apply skipn_length_app |].
    fold st. fold et.
    replace (pre ++ st ++ (attrs ++ ">"%char :: body) ++ et ++ post)
      with (pre ++ (st ++ (attrs ++ ">"%char :: body) ++ et) ++ post)
      by (now rewrite <- !app_assoc).
    replace (length pre + length st + length (attrs ++ ">"%char :: body)
             + length et)
      with (length pre
            + length (st ++ (attrs ++ ">"%char :: body) ++ et))
      by (rewrite !length_app; lia).
    apply skipn_app_app.
Qed.

Lemma getXmlTagBody_returns_body_witness :
  exists r c', getXmlTagBody (lit "name") move_after xml_sample = Ok (r, c') /\
    to_string r = lit "John" /\
    getOffset r = Ok 0%Z /\
    to_string c' = lit "<age>30</age></root>".
Proof.
  apply (@getXmlTagBody_returns_body xml_sample (lit "name") move_after
           (lit "<root>") [] (lit "John") (lit "<age>30</age></root>")).
  - reflexivity.
  - apply find_text_Some. reflexivity.
  - apply find_text_Some. reflexivity.
  - simpl. intros [H|[H|[H|[H|H]]]]; try discriminate H. exact H.
  - intros H. exact H.
Defined.

(** ** JSON properties in general *)

Lemma take_while_app_forall (p : ascii -> bool) (a b : text) :
  forallb p a = true -> take_while p (a ++ b) = a ++ take_while p b.
Proof.
  induction a as [|x a IH]; simpl; [reflexivity|].
  intros H. apply andb_true_iff in H as [Hx Ha]. now rewrite Hx, IH.
Qed.

Lemma getJsonProp_json_value (prop : text) :
  getJsonProp prop =
  on_copy (
    found <- to (DOUBLE_QUOTE ++ prop ++ DOUBLE_QUOTE) move_after ;;
    if negb found then ret PatternSeeker_default
    else
      skipWhiteSpaces ;;
      colon <- expect (lit ":") ;;
      if negb colon then ret PatternSeeker_default
      else skipWhiteSpaces ;; json_value).
Proof. reflexivity. Qed.

(** With the name, a colon and white space in front, [getJsonProp] reads
    the value from what follows them, on a copy. *)
Lemma getJsonProp_reaches_value (c : PatternSeeker)
    (prop pre ws1 ws2 rest : text) :
  to_string c =
    pre ++ (DOUBLE_QUOTE ++ prop ++ DOUBLE_QUOTE) ++ ws1
        ++ ":"%char :: ws2 ++ rest ->
  first_at (DOUBLE_QUOTE ++ prop ++ DOUBLE_QUOTE) (to_string c)
    (length pre) ->
  forallb isspace ws1 = true ->
  forallb isspace ws2 = true ->
  take_while isspace rest = [] ->
  exists c4,
    to_string c4 = rest /\
    m_originalPointer c4 = m_originalPointer c /\
    getJsonProp prop c =
      match json_value c4 with
      | Ok (r, _) => Ok (r, c)
      | Fault f => Fault f
      end.
Proof.
  intros Hs Hname Hws1 Hws2 Hrest.
  apply find_text_Some in Hname.
  rewrite getJsonProp_json_value. unfold on_copy, bind.
  set (key := DOUBLE_QUOTE ++ prop ++ DOUBLE_QUOTE) in *.
  rewrite to_run, Hname. cbn [negb moved].
  set (c1 := advanced (length pre + length key) c).
  assert (S1 : to_string c1 = ws1 ++ ":"%char :: ws2 ++ rest).
  { unfold c1. now rewrite to_string_advanced, Hs, skipn_app_app. }
  rewrite skipWhiteSpaces_run, S1, take_while_stops
    by (assumption || reflexivity).
  set (c2 := advanced (length ws1) c1).
  assert (S2 : to_string c2 = ":"%char :: ws2 ++ rest).
  { unfold c2. now rewrite to_string_advanced, S1, skipn_length_app. }
  rewrite expect_run.
  assert (E : startsWith (lit ":") c2 = true).
  { unfold startsWith, sv.starts_with. fold (to_string c2). now rewrite S2. }
  rewrite E. cbn [negb length lit list_ascii_of_string].
  set (c3 := advanced 1 c2).
  assert (S3 : to_string c3 = ws2 ++ rest).
  { unfold c3. now rewrite to_string_advanced, S2. }
  rewrite skipWhiteSpaces_run, S3, take_while_app_forall, Hrest, app_nil_r
    by assumption.
  exists (advanced (length ws2) c3). split; [|split; [reflexivity|]].
  - now rewrite to_string_advanced, S3, skipn_length_app.
  - reflexivity.
Qed.

(** X14: [getJsonProp] on a string value.  When the first ["name"] of the
    view is followed by white space, a colon, white space and a quoted
    value without a double quote inside, [getJsonProp(name)] returns the
    text between the quotes, with the receiver's origin, and the receiver
    is unchanged.  The white space may be empty. *)
Theorem getJsonProp_string_value (c : PatternSeeker)
    (prop pre ws1 ws2 value post : text) :
  to_string c =
    pre ++ (DOUBLE_QUOTE ++ prop ++ DOUBLE_QUOTE) ++ ws1
        ++ ":"%char :: ws2 ++ (dquote :: value ++ dquote :: post) ->
  first_at (DOUBLE_QUOTE ++ prop ++ DOUBLE_QUOTE) (to_string c)
    (length pre) ->
  forallb isspace ws1 = true ->
  forallb isspace ws2 = true ->
  ~ In dquote value ->
  exists r, getJsonProp prop c = Ok (r, c) /\
    to_string r = value /\
    m_originalPointer r = m_originalPointer c.
Proof.
  intros Hs Hname Hws1 Hws2 Hval.
  destruct (@getJsonProp_reaches_value c prop pre ws1 ws2
              (dquote :: value ++ dquote :: post) Hs Hname Hws1 Hws2
              eq_refl) as (c4 & S4 & O4 & ->).
  unfold json_value, bind. rewrite expect_run.
  assert (E : startsWith DOUBLE_QUOTE c4 = true).
  { unfold startsWith, sv.starts_with. fold (to_string c4). now rewrite S4. }
  rewrite E, extract_to_run, to_string_advanced, S4.
  cbn [length DOUBLE_QUOTE skipn].
  unfold DOUBLE_QUOTE. rewrite find_text_char_after by assumption.
  eexists. split; [reflexivity|].
  rewrite to_string_slice, to_string_advanced, S4. cbn [skipn].
  split; [apply firstn_length_app | exact O4].
Qed.

Lemma getJsonProp_string_value_witness :
  exists r, getJsonProp (lit "name") json_sample = Ok (r, json_sample) /\
    to_string r = lit "John" /\
    m_originalPointer r = m_originalPointer json_sample.
Proof.
  apply (@getJsonProp_string_value json_sample (lit "name") (lit "{") []
           (lit " ") (lit "John")
           (unq ", 'age': 30, 'array': [1,2,3], 'obj': {'nested': 'value'}}")).
  - reflexivity.
  - apply find_text_Some. reflexivity.
  - reflexivity.
  - reflexivity.
  - simpl. intros [H|[H|[H|[H|H]]]]; try discriminate H. exact H.
Defined.

(** X15: [getJsonProp] on an unquoted value (a number, true, null).  When
    the first ["name"] is followed by white space, a colon, white space and
    a value that starts with a character other than white space, a double
    quote, [[] and [{], and holds none of the terminators
    [, space \r \n ] }], then: if a terminator follows the value, the
    result is the value; if the view ends with the value, the result is the
    empty sentinel.  The receiver is unchanged in both cases. *)
Theorem getJsonProp_scalar_value (c : PatternSeeker)
    (prop pre ws1 ws2 : text) (v0 : ascii) (vs : text) :
  first_at (DOUBLE_QUOTE ++ prop ++ DOUBLE_QUOTE) (to_string c)
    (length pre) ->
  forallb isspace ws1 = true ->
  forallb isspace ws2 = true ->
  isspace v0 = false ->
  v0 <> dquote -> v0 <> "["%char -> v0 <> "{"%char ->
  (forall x, In x (v0 :: vs) -> ~ In x json_terminators) ->
  (forall t post,
     In t json_terminators ->
     to_string c =
       pre ++ (DOUBLE_QUOTE ++ prop ++ DOUBLE_QUOTE) ++ ws1
           ++ ":"%char :: ws2 ++ ((v0 :: vs) ++ t :: post) ->
     exists r, getJsonProp prop c = Ok (r, c) /\
       to_string r = v0 :: vs /\
       m_originalPointer r = m_originalPointer c) /\
  (to_string c =
     pre ++ (DOUBLE_QUOTE ++ prop ++ DOUBLE_QUOTE) ++ ws1
         ++ ":"%char :: ws2 ++ (v0 :: vs) ->
   getJsonProp prop c = Ok (PatternSeeker_default, c)).
Proof.
  intros Hname Hws1 Hws2 Hsp Hq Ha Ho Hval.
  assert (Tw : forall tail, take_while isspace ((v0 :: vs) ++ tail) = [])
    by (intros tail; simpl; now rewrite Hsp).
  assert (Dispatch : forall c4 tail,
            to_string c4 = (v0 :: vs) ++ tail ->
            json_value c4 = extractUntilOneOf json_terminators none c4).
  { intros c4 tail S4. unfold json_value, bind, reading.
    rewrite expect_run.
    unfold startsWith, sv.starts_with. fold (to_string c4). rewrite S4.
    simpl starts_with_text.
    apply Ascii.eqb_neq in Hq, Ha, Ho.
    rewrite Hq. cbn [andb]. cbv beta iota.
    fold (to_string c4). rewrite S4.
    change (lit "[") with ["["%char]. cbn [starts_with_text app].
    rewrite Ha. cbn [andb]. cbv beta iota.
    fold (to_string c4). rewrite S4.
    change (lit "{") with ["{"%char]. cbn [starts_with_text app].
    now rewrite Ho. }
  split.
  - intros t post Ht Hs.
    destruct (@getJsonProp_reaches_value c prop pre ws1 ws2
                ((v0 :: vs) ++ t :: post) Hs Hname Hws1 Hws2 (Tw _))
      as (c4 & S4 & O4 & ->).
    rewrite (Dispatch c4 _ S4), extractUntilOneOf_run, S4,
      (@find_first_of_text_at json_terminators (v0 :: vs) t post Ht Hval).
    eexists. split; [reflexivity|].
    rewrite to_string_slice, S4.
    split; [apply firstn_length_app | exact O4].
  - intros Hs.
    rewrite <- (app_nil_r (v0 :: vs)) in Hs.
    destruct (@getJsonProp_reaches_value c prop pre ws1 ws2
                ((v0 :: vs) ++ []) Hs Hname Hws1 Hws2 (Tw _))
      as (c4 & S4 & O4 & ->).
    rewrite (Dispatch c4 _ S4), extractUntilOneOf_run, S4, app_nil_r.
    now rewrite find_first_of_text_None by exact Hval.
Qed.

Lemma getJsonProp_scalar_value_witness :
  (exists r, getJsonProp (lit "age") json_sample = Ok (r, json_sample) /\
     to_string r = lit "30" /\
     m_originalPointer r = m_originalPointer json_sample) /\
  getJsonProp (lit "age") open_number_sample =
    Ok (PatternSeeker_default, open_number_sample).
Proof.
  split.
  - apply (proj1 (@getJsonProp_scalar_value json_sample (lit "age")
             (unq "{'name': 'John', ") [] (lit " ") "3"%char (lit "0")
             ltac:(apply find_text_Some; reflexivity)
             eq_refl eq_refl eq_refl
             ltac:(discriminate) ltac:(discriminate) ltac:(discriminate)
             ltac:(intros x [<-|[<-|[]]] H; simpl in H;
                   repeat (destruct H as [H|H]; [discriminate H|]);
                   exact H))
           ","%char
           (unq " 'array': [1,2,3], 'obj': {'nested': 'value'}}")).
    + simpl. tauto.
    + reflexivity.
  - apply (proj2 (@getJsonProp_scalar_value open_number_sample (lit "age")
             [] [] (lit " ") "3"%char (lit "0")
             ltac:(apply find_text_Some; reflexivity)
             eq_refl eq_refl eq_refl
             ltac:(discriminate) ltac:(discriminate) ltac:(discriminate)
             ltac:(intros x [<-|[<-|[]]] H; simpl in H;
                   repeat (destruct H as [H|H]; [discriminate H|]);
                   exact H))).
    reflexivity.
Defined.

(** X16: what [getJsonProp] needs before the value.  When ["name"] does
    not occur in the view the result is the empty sentinel; so it is when
    the first ["name"] is followed, after white space, by anything but a
    colon (the end of the view included).  The receiver is unchanged. *)
Theorem getJsonProp_needs_name_and_colon (c : PatternSeeker) (prop : text) :
  (absent (DOUBLE_QUOTE ++ prop ++ DOUBLE_QUOTE) (to_string c) ->
     getJsonProp prop c = Ok (PatternSeeker_default, c)) /\
  (forall pre ws rest,
     to_string c =
       pre ++ (DOUBLE_QUOTE ++ prop ++ DOUBLE_QUOTE) ++ ws ++ rest ->
     first_at (DOUBLE_QUOTE ++ prop ++ DOUBLE_QUOTE) (to_string c)
       (length pre) ->
     forallb isspace ws = true ->
     take_while isspace rest = [] ->
     starts_with_text rest (lit ":") = false ->
     getJsonProp prop c = Ok (PatternSeeker_default, c)).
Proof.
  rewrite getJsonProp_json_value. unfold on_copy, bind.
  set (key := DOUBLE_QUOTE ++ prop ++ DOUBLE_QUOTE). split.
  - intros H. apply find_text_None in H. now rewrite to_run, H.
  - intros pre ws rest Hs Hname Hws Hrest Hcolon.
    apply find_text_Some in Hname.
    rewrite to_run, Hname. cbn [negb moved].
    set (c1 := advanced (length pre + length key) c).
    assert (S1 : to_string c1 = ws ++ rest).
    { unfold c1. now rewrite to_string_advanced, Hs, skipn_app_app. }
    rewrite skipWhiteSpaces_run, S1, take_while_app_forall, Hrest, app_nil_r
      by assumption.
    rewrite expect_run.
    assert (E : startsWith (lit ":") (advanced (length ws) c1) = false).
    { unfold startsWith, sv.starts_with.
      fold (to_string (advanced (length ws) c1)).
      now rewrite to_string_advanced, S1, skipn_length_app. }
    now rewrite E.
Qed.

Lemma getJsonProp_needs_name_and_colon_witness :
  getJsonProp (lit "a") no_colon_sample =
    Ok (PatternSeeker_default, no_colon_sample) /\
  getJsonProp (lit "b") no_colon_sample =
    Ok (PatternSeeker_default, no_colon_sample).
Proof.
  split.
  - apply (proj2 (getJsonProp_needs_name_and_colon no_colon_sample (lit "a"))
             (lit "{") (lit " ") (lit "1}")).
    + reflexivity.
    + apply find_text_Some. reflexivity.
    + reflexivity.
    + reflexivity.
    + reflexivity.
  - apply (proj1 (getJsonProp_needs_name_and_colon no_colon_sample (lit "b"))).
    apply find_text_None. reflexivity.
Defined.

(** ** XML attributes with an equals sign *)

(** X17: [getXmlAttr] on [name = "value"].  When the first occurrence of
    the name in the view is followed by white space, an equals sign, white
    space and a quoted value without a double quote inside, the result is
    the value, with the receiver's origin, and the receiver is unchanged;
    the white space may be empty.  When the name does not occur the result
    is the empty sentinel. *)
Theorem getXmlAttr_with_equals (c : PatternSeeker)
    (name pre ws1 ws2 value post : text) :
  (absent name (to_string c) ->
     getXmlAttr name c = Ok (PatternSeeker_default, c)) /\
  (to_string c =
     pre ++ name ++ ws1
         ++ "="%char :: ws2 ++ dquote :: value ++ dquote :: post ->
   first_at name (to_string c) (length pre) ->
   forallb isspace ws1 = true ->
   forallb isspace ws2 = true ->
   ~ In dquote value ->
   exists r, getXmlAttr name c = Ok (r, c) /\
     to_string r = value /\
     m_originalPointer r = m_originalPointer c).
Proof.
  unfold getXmlAttr, on_copy, bind. split.
  - intros H. apply find_text_None in H. now rewrite to_run, H.
  - intros Hs Hname Hws1 Hws2 Hval.
    apply find_text_Some in Hname.
    rewrite to_run, Hname. cbn [negb moved].
    set (c1 := advanced (length pre + length name) c).
    assert (S1 : to_string c1 =
                 ws1 ++ "="%char :: ws2 ++ dquote :: value ++ dquote :: post).
    { unfold c1. now rewrite to_string_advanced, Hs, skipn_app_app. }
    rewrite skipWhiteSpaces_run, S1, take_while_stops
      by (assumption || reflexivity).
    set (c2 := advanced (length ws1) c1).
    assert (S2 : to_string c2 =
                 "="%char :: ws2 ++ dquote :: value ++ dquote :: post).
    { unfold c2. now rewrite to_string_advanced, S1, skipn_length_app. }
    rewrite expect_run.
    assert (E : startsWith (lit "=") c2 = true).
    { unfold startsWith, sv.starts_with. fold (to_string c2).
      now rewrite S2. }
    rewrite E. cbn [length lit list_ascii_of_string].
    set (c3 := advanced 1 c2).
    assert (S3 : to_string c3 = ws2 ++ dquote :: value ++ dquote :: post).
    { unfold c3. now rewrite to_string_advanced, S2. }
    rewrite skipWhiteSpaces_run, S3, take_while_stops
      by (assumption || reflexivity).
    set (c4 := advanced (length ws2) c3).
    assert (S4 : to_string c4 = dquote :: value ++ dquote :: post).
    { unfold c4. now rewrite to_string_advanced, S3, skipn_length_app. }
    rewrite extract_from_to_run, S4.
    unfold DOUBLE_QUOTE. rewrite find_text_cons. simpl starts_with_text.
    cbn [length Nat.add skipn].
    rewrite find_text_char_after by assumption.
    eexists. split; [reflexivity|].
    rewrite to_string_slice, S4. cbn [skipn].
    split; [apply firstn_length_app | reflexivity].
Qed.

Lemma getXmlAttr_with_equals_witness :
  exists r, getXmlAttr (lit "class") attrs_sample = Ok (r, attrs_sample) /\
    to_string r = lit "example" /\
    m_originalPointer r = m_originalPointer attrs_sample.
Proof.
  apply (proj2 (@getXmlAttr_with_equals attrs_sample (lit "class")
           (unq "<tag id='123' ") (lit " ") (lit " ") (lit "example")
           (lit ">content</tag>"))).
  - reflexivity.
  - apply find_text_Some. reflexivity.
  - reflexivity.
  - reflexivity.
  - simpl. intros H.
    repeat (destruct H as [H|H]; [discriminate H|]). exact H.
Defined.

(** ** Methods that cannot fault *)





(** ** Instances of the properties above *)

Lemma to_seeks_first_occurrence_witness :
  exists c', to (lit "<name>") move_before hello_sample = Ok (true, c') /\
    to_string c' = lit "<name>" ++ lit "World</name>!" /\
    m_originalPointer c' = m_originalPointer hello_sample.
Proof.
  apply (proj2 (proj2 (to_seeks_first_occurrence hello_sample (lit "<name>")
                         move_before))
           (lit "Hello, ") (lit "World</name>!")).
  - reflexivity.
  - apply find_text_Some. reflexivity.
Defined.

Lemma extract_to_splits_view_witness :
  exists r c', extract_to (lit "<name>") move_after hello_sample = Ok (r, c') /\
    to_string r = lit "Hello, " /\
    sv.data (m_str r) = sv.data (m_str hello_sample) /\
    m_originalPointer r = m_originalPointer hello_sample /\
    m_originalPointer c' = m_originalPointer hello_sample /\
    to_string c' = lit "World</name>!".
Proof.
  apply (proj2 (extract_to_splits_view hello_sample (lit "<name>") move_after)
           (lit "Hello, ") (lit "World</name>!")).
  - reflexivity.
  - apply find_text_Some. reflexivity.
Defined.

Lemma extractUntilOneOf_stops_at_terminator_witness :
  exists r c',
    extractUntilOneOf (lit "<,") move_after hello_sample = Ok (r, c') /\
    to_string r = lit "Hello" /\
    m_originalPointer r = m_originalPointer hello_sample /\
    (move_after <> move_after -> c' = hello_sample) /\
    (move_after = move_after ->
       to_string c' = lit " <name>World</name>!" /\
       m_originalPointer c' = m_originalPointer hello_sample).
Proof.
  apply (proj2 (extractUntilOneOf_stops_at_terminator hello_sample (lit "<,")
                  move_after)
           (lit "Hello") ","%char (lit " <name>World</name>!")).
  - reflexivity.
  - simpl. tauto.
  - intros x Hx Hin. simpl in Hx, Hin.
    repeat (destruct Hx as [Hx|Hx];
            [subst x; repeat (destruct Hin as [Hin|Hin];
                              [discriminate Hin|]); exact Hin|]).
    exact Hx.
Defined.

Lemma getXmlTag_spans_element_witness :
  exists r c', getXmlTag (lit "name") move_after xml_sample = Ok (r, c') /\
    to_string r = lit "<name" ++ lit ">John" ++ lit "</name>" /\
    m_originalPointer r = m_originalPointer xml_sample /\
    m_originalPointer c' = m_originalPointer xml_sample /\
    to_string c' = lit "<age>30</age></root>".
Proof.
  apply (proj2 (proj2 (getXmlTag_spans_element xml_sample (lit "name")
                         move_after))
           (lit "<root>") (lit ">John") (lit "<age>30</age></root>")).
  - reflexivity.
  - apply find_text_Some. reflexivity.
  - apply find_text_Some. reflexivity.
Defined.

Lemma extract_size_truncates_witness :
  exists r c', extract_size 40 move_before hello_sample = Ok (r, c') /\
    to_string r =
      firstn (Nat.min 40 (size hello_sample)) (to_string hello_sample) /\
    m_originalPointer r = m_originalPointer hello_sample /\
    c' = hello_sample.
Proof.
  apply (@extract_size_truncates 40 move_before hello_sample).
  left. discriminate.
Defined.
